(** * SECL rule compiler ([pkg/security/secl/compiler/eval], file eval.go)

    A shallow embedding of the three functions of eval.go
    ([extractField], [identToEvaluator], [nodeToEvaluator], with
    [arrayToEvaluator]) and the properties of the specification that are
    stated about them.

    Conventions.
    - Go strings are [string]; maps are [gmap]; a nil-able map or pointer
      is an [option].
    - The compile state [*state] is threaded explicitly: every function
      takes the state and returns the state it leaves behind.
    - Evaluators are values: a combinator returns the evaluator it builds;
      the two functions that write into their operand ([compilePattern]
      and [Compile]) return the operand as they leave it.
    - The evaluator combinators (the generated eval_operators.go), the
      evaluator methods, the [Model] and [RandString] are not part of
      eval.go. They are taken as parameters, bundled in the classes
      [Model] and [Operators]; nothing is assumed about them beyond their
      signatures, except where a statement names its assumption
      ([NotNegates], [KeepRegisters]).
    - Strings are compared byte by byte. The brackets, the dot and the
      newline are one-byte characters that occur in no multi-byte
      sequence, so the two patterns of [extractField] match the same
      spans on bytes as on runes. *)

From Stdlib Require Import ZArith String Ascii List Bool Lia.
From stdpp Require Import base option strings gmap.

Set Warnings "-register-all".
Local Open Scope string_scope.

(** ** The fragment of Go's [regexp] used by [extractField] *)

Module regexp.

(** Character classes: [.] (any character but newline, Go's default
    without the [s] flag) and a negated one-character class [[^c]]
    (which does match newline). *)
Inductive class : Type :=
| AnyCharNotNL
| NotChar (c : ascii).

Definition class_matches (k : class) (c : ascii) : bool :=
  match k with
  | AnyCharNotNL => negb (Ascii.eqb c "010"%char)
  | NotChar d => negb (Ascii.eqb c d)
  end.

(** A pattern is a sequence of instructions; repetition is greedy and
    only applies to a class, groups are numbered from 1. *)
Inductive inst : Type :=
| Lit (c : ascii)
| Star (k : class)
| Plus (k : class)
| Open (n : nat)
| Close (n : nat).

Definition Regexp : Type := list inst.

(** Captures: group number to (start, end) offsets in the input. *)
Definition caps : Type := list (nat * (nat * nat)).

Definition cap_lookup (n : nat) (cs : caps) : option (nat * nat) :=
  match List.find (fun p => Nat.eqb (fst p) n) cs with
  | Some p => Some (snd p)
  | None => None
  end.

Section Backtrack.
Context {R : Type}.

(** Greedy repetition of a class: take the longest run first and give
    characters back one at a time until the continuation succeeds. *)
Fixpoint star (k : class) (cont : string -> nat -> option R)
    (s : string) (pos : nat) : option R :=
  match s with
  | String c s' =>
      if class_matches k c then
        match star k cont s' (S pos) with
        | Some r => Some r
        | None => cont s pos
        end
      else cont s pos
  | EmptyString => cont s pos
  end.
End Backtrack.

(** Backtracking match of [re] against a prefix of [s], which starts at
    offset [pos] of the input. The first match found by this search is
    the match Go reports (leftmost-first semantics). *)
Fixpoint matchHere (re : Regexp) (s : string) (pos : nat)
    (opened : list (nat * nat)) (cs : caps) : option (nat * caps) :=
  match re with
  | [] => Some (pos, cs)
  | Lit c :: re' =>
      match s with
      | String d s' =>
          if Ascii.eqb c d then matchHere re' s' (S pos) opened cs else None
      | EmptyString => None
      end
  | Star k :: re' =>
      star k (fun s' pos' => matchHere re' s' pos' opened cs) s pos
  | Plus k :: re' =>
      match s with
      | String d s' =>
          if class_matches k d then
            star k (fun s'' pos' => matchHere re' s'' pos' opened cs) s' (S pos)
          else None
      | EmptyString => None
      end
  | Open n :: re' => matchHere re' s pos ((n, pos) :: opened) cs
  | Close n :: re' =>
      match cap_lookup n (List.map (fun p => (fst p, (snd p, snd p))) opened) with
      | Some (b, _) => matchHere re' s pos opened ((n, (b, pos)) :: cs)
      | None => matchHere re' s pos opened cs
      end
  end.

(** Leftmost match at or after the start of [s]. *)
Fixpoint findFrom (re : Regexp) (s : string) (pos : nat)
    : option (nat * nat * caps) :=
  match matchHere re s pos [] [] with
  | Some (e, cs) => Some (pos, e, cs)
  | None =>
      match s with
      | String _ s' => findFrom re s' (S pos)
      | EmptyString => None
      end
  end.

Definition slice (src : string) (b e : nat) : string :=
  substring b (e - b) src.

Definition group (src : string) (cs : caps) (n : nat) : string :=
  match cap_lookup n cs with
  | Some (b, e) => slice src b e
  | None => ""
  end.

(** [re.NumSubexp()]: the number of groups of the pattern. *)
Definition NumSubexp (re : Regexp) : nat :=
  length (List.filter (fun i => match i with Open _ => true | _ => false end) re).

(** [re.FindStringSubmatch(src)]: nil when there is no match, otherwise
    the leftmost match followed by one entry per group. Only the first
    match is reported, however many there are. *)
Definition FindStringSubmatch (re : Regexp) (src : string) : list string :=
  match findFrom re src 0 with
  | Some (b, e, cs) =>
      slice src b e :: List.map (group src cs) (seq 1 (NumSubexp re))
  | None => []
  end.

(** A replacement template, already split at its [$n] references. *)
Inductive tmpl : Type :=
| Text (s : string)
| Ref (n : nat).

Fixpoint expand (t : list tmpl) (src : string) (cs : caps) : string :=
  match t with
  | [] => ""
  | Text s :: t' => s ++ expand t' src cs
  | Ref n :: t' => group src cs n ++ expand t' src cs
  end.

(** [re.ReplaceAllString(src, repl)]: every non-overlapping match, found
    left to right, is replaced by the expanded template; the text
    between matches is copied. [skip] counts the characters of the
    current match that are still to be passed over. Both patterns of
    [extractField] only have matches of two characters or more; a match
    of the empty string is copied through like unmatched text. *)
Fixpoint replaceFrom (re : Regexp) (repl : list tmpl) (src : string)
    (s : string) (pos skip : nat) : string :=
  match s with
  | EmptyString => ""
  | String c s' =>
      match skip with
      | S k => replaceFrom re repl src s' (S pos) k
      | O =>
          match matchHere re s pos [] [] with
          | Some (e, cs) =>
              if Nat.ltb pos e then
                expand repl src cs ++ replaceFrom re repl src s' (S pos) (e - pos - 1)
              else String c (replaceFrom re repl src s' (S pos) 0)
          | None => String c (replaceFrom re repl src s' (S pos) 0)
          end
      end
  end.

Definition ReplaceAllString (re : Regexp) (src : string) (repl : list tmpl)
    : string :=
  replaceFrom re repl src src 0 0.

End regexp.

(** ** Positions and errors *)

(** [lexer.Position]; its zero value is [Position0]. *)
Record Position : Type := mkPosition {
  Filename : string;
  Offset : Z;
  Line : Z;
  Column : Z
}.

Definition Position0 : Position := mkPosition "" 0 0 0.

Abbreviation Field := string (only parsing).
Abbreviation RegisterID := string (only parsing).
Abbreviation MacroID := string (only parsing).

(** [reflect.Kind], as far as [NewTypeError] is given one. *)
Inductive Kind : Type := KBool | KInt | KString | KArray.

(** The errors eval.go builds or passes on. [E] is the type of the errors
    that come from the collaborators (the model, the combinators). *)
Inductive error (E : Type) : Type :=
| WrongRegisterFormat (field : string)
| TypeError (pos : Position) (kind : Kind)
| OpUnknownError (pos : Position) (op : string)
| RegisterNameNotAllowed (pos : Position) (regID : RegisterID) (msg : string)
| RegisterMultipleFields (pos : Position) (regID : RegisterID) (msg : string)
| ErrNonStaticPattern (field : Field)
| ErrorAt (pos : Position) (msg : string)
| External (e : E).

Arguments WrongRegisterFormat {E} field.
Arguments TypeError {E} pos kind.
Arguments OpUnknownError {E} pos op.
Arguments RegisterNameNotAllowed {E} pos regID msg.
Arguments RegisterMultipleFields {E} pos regID msg.
Arguments ErrNonStaticPattern {E} field.
Arguments ErrorAt {E} pos msg.
Arguments External {E} e.

(** ** [extractField] *)

(** The first pattern of [extractField]: an opening bracket, group 1 made
    of any number of characters other than a closing bracket, a closing
    bracket. *)
Definition re_register : regexp.Regexp :=
  [regexp.Lit "["%char; regexp.Open 1; regexp.Star (regexp.NotChar "]"%char);
   regexp.Close 1; regexp.Lit "]"%char].

(** The second pattern: group 1 is one or more characters ([.+]), then a
    bracket pair holding one or more characters other than a closing
    bracket, then group 2, the rest of the line ([.*]). *)
Definition re_field : regexp.Regexp :=
  [regexp.Open 1; regexp.Plus regexp.AnyCharNotNL; regexp.Close 1;
   regexp.Lit "["%char; regexp.Plus (regexp.NotChar "]"%char); regexp.Lit "]"%char;
   regexp.Open 2; regexp.Star regexp.AnyCharNotNL; regexp.Close 2].

Definition extractField {E : Type} (field : string)
    : error E + (Field * Field * RegisterID) :=
  let ids := regexp.FindStringSubmatch re_register field in
  match length ids with
  | 0 => inr (field, "", "")
  | 2 =>
      let regID := nth 1 ids "" in
      let field' := regexp.ReplaceAllString re_field field [regexp.Ref 1; regexp.Ref 2] in
      let itField := regexp.ReplaceAllString re_field field [regexp.Ref 1] in
      inr (field', itField, regID)
  | _ => inl (WrongRegisterFormat field)
  end.

(** ** Data model *)

(** What eval.go takes from outside the package or leaves abstract: the
    per-event [*Context], the [Iterator] handles of the model, the Go
    [error] values of the collaborators with their [Error()] text, the
    compiled [*regexp.Regexp], the function values stored in an
    [OpOverrides] table, and the other dynamic types an [interface{}] can
    hold (constants and macro values are arbitrary). *)
Class Externals : Type := {
  Ctx : Type;
  Iterator : Type;
  ExtError : Type;
  errorString : ExtError -> string;
  Matcher : Type;
  OverrideFn : Type;
  Opaque : Type
}.

Inductive FieldValueType : Type :=
| ScalarValueType
| PatternValueType
| RegexpValueType.

(** [ast.StringMember] and [ast.Array], as [arrayToEvaluator] reads them. *)
Record StringMember : Type := mkStringMember {
  Member_String : option string;
  Member_Pattern : option string;
  Member_Regexp : option string
}.

Record Array : Type := mkArray {
  Array_Pos : Position;
  Array_Numbers : list Z;
  Array_StringMembers : list StringMember;
  Array_Ident : option string
}.

Record ArrayComparison : Type := mkArrayComparison {
  ArrayComparison_Pos : Position;
  ArrayComparison_Op : string;
  ArrayComparison_Array : Array
}.

(** The AST nodes [nodeToEvaluator] switches on. A pointer the code tests
    against nil is an [option]; so is a child that only exists next to an
    operator ([Next], [Unary], [Primary], [SubExpression]). *)
Inductive node : Type :=
| BooleanExpression (Expression : node)
| Expression (Pos : Position) (Comparison : node)
    (Op : option string) (Next : option node)
| BitOperation (Pos : Position) (Unary : node)
    (Op : option string) (Next : option node)
| Comparison (Pos : Position) (BitOperation : node)
    (ScalarComparison : option scalarComparison)
    (ArrayComparison : option ArrayComparison)
| ArrayComparisonNode (obj : ArrayComparison)
| ScalarComparisonNode (obj : scalarComparison)
| Unary (Pos : Position) (Op : option string)
    (Unary : option node) (Primary : option node)
| Primary (Pos : Position) (Ident : option string)
    (Number Duration : option Z) (String Pattern Regexp : option string)
    (SubExpression : option node)
| ArrayNode (obj : Array)
with scalarComparison : Type :=
| ScalarComparison (Pos : Position) (Op : string) (Next : node).

Definition ScalarComparison_Op (sc : scalarComparison) : string :=
  match sc with ScalarComparison _ op _ => op end.

Definition ScalarComparison_Next (sc : scalarComparison) : node :=
  match sc with ScalarComparison _ _ next => next end.

Section DataModel.
Context `{Externals}.

(** Modelled from the spec: the evaluator structs are declared outside
    eval.go. Each carries an optional deferred function ([EvalFnc], nil
    for a static operand), the static value and a weight; the fields
    that eval.go reads or writes ([isDuration], [Field], [ValueType],
    [OpOverrides]) keep their source names. *)
Record BoolEvaluator : Type := mkBoolEvaluator {
  Bool_EvalFnc : option (Ctx -> bool);
  Bool_Value : bool;
  Bool_Weight : Z
}.

Record IntEvaluator : Type := mkIntEvaluator {
  Int_EvalFnc : option (Ctx -> Z);
  Int_Value : Z;
  Int_Weight : Z;
  isDuration : bool
}.

Record OpOverrides : Type := mkOpOverrides {
  Override_StringEquals : option OverrideFn
}.

Record StringEvaluator : Type := mkStringEvaluator {
  String_EvalFnc : option (Ctx -> string);
  String_Field : Field;
  String_Value : string;
  String_Weight : Z;
  String_ValueType : FieldValueType;
  String_OpOverrides : option OpOverrides;
  String_regexp : option Matcher
}.

Record BoolArrayEvaluator : Type := mkBoolArrayEvaluator {
  BoolArray_EvalFnc : option (Ctx -> list bool);
  BoolArray_Values : list bool;
  BoolArray_Weight : Z
}.

Record IntArrayEvaluator : Type := mkIntArrayEvaluator {
  IntArray_EvalFnc : option (Ctx -> list Z);
  IntArray_Values : list Z;
  IntArray_Weight : Z
}.

Record FieldValue : Type := mkFieldValue {
  FieldValue_Value : string;
  FieldValue_Type : FieldValueType;
  FieldValue_Regexp : option Matcher
}.

Record StringArrayEvaluator : Type := mkStringArrayEvaluator {
  StringArray_EvalFnc : option (Ctx -> list string);
  StringArray_Values : list string;
  StringArray_Weight : Z;
  StringArray_fieldValues : list FieldValue
}.

(** The dynamic values that travel as [interface{}]: a pointer to one of
    the six evaluators, an [IntArrayEvaluator] struct held by value (what
    [arrayToEvaluator] returns for a list of numbers; a type switch on
    the pointer type does not select it), or anything else. *)
Inductive value : Type :=
| BoolEv (e : BoolEvaluator)
| IntEv (e : IntEvaluator)
| StringEv (e : StringEvaluator)
| BoolArrayEv (e : BoolArrayEvaluator)
| IntArrayEv (e : IntArrayEvaluator)
| StringArrayEv (e : StringArrayEvaluator)
| IntArrayStruct (e : IntArrayEvaluator)
| OtherValue (x : Opaque).

Record Macro : Type := mkMacro {
  Macro_Value : value
}.

Record Opts : Type := mkOpts {
  LegacyAttributes : option (gmap string string);
  Constants : gmap string value;
  Macros : gmap string Macro
}.

Record registerInfo : Type := mkRegisterInfo {
  reg_field : Field;
  reg_iterator : Iterator;
  reg_subFields : gmap string bool
}.

(** The compile state. [macros] and [registersInfo] are the fields
    eval.go uses. Modelled from the spec: [fields] is the accumulated set
    of referenced field names that [UpdateFields] extends. [rand] is not
    a field of the struct: it counts the calls made to the global
    [RandString] so far, so that the generator's outputs can be given as
    a function of the call number. *)
Record state : Type := mkState {
  macros : option (gmap string Macro);
  registersInfo : gmap string registerInfo;
  fields : gset string;
  rand : nat
}.

Definition set_registersInfo (st : state) (r : gmap string registerInfo) : state :=
  mkState (macros st) r (fields st) (rand st).

Definition tick_rand (st : state) : state :=
  mkState (macros st) (registersInfo st) (fields st) (S (rand st)).

(** Modelled from the spec: [state.UpdateFields(field)] adds the resolved
    field name to the field set of the compile state. *)
Definition UpdateFields (st : state) (field : Field) : state :=
  mkState (macros st) (registersInfo st) ({[ field ]} ∪ fields st) (rand st).

(** What [identToEvaluator] and [nodeToEvaluator] return: the Go triple
    (value, position, error) with err == nil, the triple with err != nil
    (the value is nil then), or a run-time panic (a nil pointer
    dereferenced). *)
Inductive result : Type :=
| Ok (v : value) (pos : Position)
| Err (pos : Position) (err : error ExtError)
| Panic.

(** The model of the event: [GetIterator] returns the Go pair (iterator,
    error), either of which can be nil; [GetEvaluator] returns an
    accessor or an error. *)
Class Model : Type := {
  GetIterator : Field -> option Iterator * option ExtError;
  GetEvaluator : Field -> RegisterID -> ExtError + value
}.

(** A combinator that receives [*state]: it may fail and may update the
    state. *)
Definition Op (A : Type) : Type := state -> (ExtError + A) * state.

(** The functions of the package that eval.go calls and that are defined
    in other files. [callStringEquals f] is the call of the function
    value [f] found in an override table; [RandString k n] is what the
    [k]-th call of [RandString(n)] returns. *)
Class Operators : Type := {
  Or : BoolEvaluator -> BoolEvaluator -> Opts -> Op BoolEvaluator;
  And : BoolEvaluator -> BoolEvaluator -> Opts -> Op BoolEvaluator;
  IntAnd : IntEvaluator -> IntEvaluator -> Opts -> Op IntEvaluator;
  IntOr : IntEvaluator -> IntEvaluator -> Opts -> Op IntEvaluator;
  IntXor : IntEvaluator -> IntEvaluator -> Opts -> Op IntEvaluator;
  ArrayBoolContains : BoolEvaluator -> BoolArrayEvaluator -> Opts -> Op BoolEvaluator;
  ArrayStringContains : StringEvaluator -> StringArrayEvaluator -> Opts -> Op BoolEvaluator;
  ArrayStringMatches : StringArrayEvaluator -> StringArrayEvaluator -> Opts -> Op BoolEvaluator;
  ArrayIntEquals : IntEvaluator -> IntArrayEvaluator -> Opts -> Op BoolEvaluator;
  ArrayIntMatches : IntArrayEvaluator -> IntArrayEvaluator -> Opts -> Op BoolEvaluator;
  BoolEquals : BoolEvaluator -> BoolEvaluator -> Opts -> Op BoolEvaluator;
  ArrayBoolEquals : BoolEvaluator -> BoolArrayEvaluator -> Opts -> Op BoolEvaluator;
  StringEquals : StringEvaluator -> StringEvaluator -> Opts -> Op BoolEvaluator;
  IntEquals : IntEvaluator -> IntEvaluator -> Opts -> Op BoolEvaluator;
  LesserThan : IntEvaluator -> IntEvaluator -> Opts -> Op BoolEvaluator;
  LesserOrEqualThan : IntEvaluator -> IntEvaluator -> Opts -> Op BoolEvaluator;
  GreaterThan : IntEvaluator -> IntEvaluator -> Opts -> Op BoolEvaluator;
  GreaterOrEqualThan : IntEvaluator -> IntEvaluator -> Opts -> Op BoolEvaluator;
  DurationLesserThan : IntEvaluator -> IntEvaluator -> Opts -> Op BoolEvaluator;
  DurationLesserOrEqualThan : IntEvaluator -> IntEvaluator -> Opts -> Op BoolEvaluator;
  DurationGreaterThan : IntEvaluator -> IntEvaluator -> Opts -> Op BoolEvaluator;
  DurationGreaterOrEqualThan : IntEvaluator -> IntEvaluator -> Opts -> Op BoolEvaluator;
  ArrayIntLesserThan : IntEvaluator -> IntArrayEvaluator -> Opts -> Op BoolEvaluator;
  ArrayIntLesserOrEqualThan : IntEvaluator -> IntArrayEvaluator -> Opts -> Op BoolEvaluator;
  ArrayIntGreaterThan : IntEvaluator -> IntArrayEvaluator -> Opts -> Op BoolEvaluator;
  ArrayIntGreaterOrEqualThan : IntEvaluator -> IntArrayEvaluator -> Opts -> Op BoolEvaluator;
  Not : BoolEvaluator -> Opts -> state -> BoolEvaluator * state;
  Minus : IntEvaluator -> Opts -> state -> IntEvaluator * state;
  IntNot : IntEvaluator -> Opts -> state -> IntEvaluator * state;
  callStringEquals : OverrideFn -> StringEvaluator -> StringEvaluator -> Opts -> Op BoolEvaluator;
  compilePattern : StringEvaluator -> ExtError + StringEvaluator;
  StringEvaluator_Compile : StringEvaluator -> ExtError + StringEvaluator;
  IntArray_AppendMembers : IntArrayEvaluator -> list Z -> IntArrayEvaluator;
  StringArray_AppendMembers :
    StringArrayEvaluator -> list StringMember -> ExtError + StringArrayEvaluator;
  RandString : nat -> nat -> string
}.

End DataModel.

(** ** Field and iterator resolution: [identToEvaluator] *)

(** [strings.Split(s, ".")]: the pieces of [s] between the dots; one piece,
    the empty string, for the empty string. *)
Fixpoint Split (s : string) : list string :=
  match s with
  | EmptyString => [""]
  | String c s' =>
      if Ascii.eqb c "."%char then "" :: Split s'
      else
        match Split s' with
        | piece :: rest => String c piece :: rest
        | [] => [String c ""]
        end
  end.

(** The [ident] struct of eval.go. [Ident] is a [*string] that every
    caller has checked against nil. *)
Record ident : Type := mkIdent {
  ident_Pos : Position;
  ident_Ident : string
}.

Section Resolver.
Context `{Externals} {model : Model} {ops : Operators}.

(** Lines 89-97: the legacy remap. The second lookup is made with
    [field], as the source has it, after [field] may have been
    replaced. *)
Definition remapLegacy (opts : Opts) (field itField : Field) : Field * Field :=
  match LegacyAttributes opts with
  | Some legacy =>
      let field :=
        match legacy !! field with Some newField => newField | None => field end in
      let itField :=
        match legacy !! field with Some newField => newField | None => itField end in
      (field, itField)
  | None => (field, itField)
  end.

(** Lines 107-119: the loop over the growing dotted prefixes of the
    field. [iterator] is the variable of that name: assigned at every
    turn, kept when the loop ends. *)
Fixpoint scanIterator (nodes : list string) (candidate : string)
    (iterator : option Iterator) : option Iterator :=
  match nodes with
  | [] => iterator
  | node :: rest =>
      let candidate :=
        if decide (candidate = "") then node else candidate ++ "." ++ node in
      let '(iterator, err) := GetIterator candidate in
      match err with
      | None => iterator
      | Some _ => scanIterator rest candidate iterator
      end
  end.

(** Lines 99-120: the iterator of the identifier, nil when there is
    none; an unknown explicit iterator field is an error. *)
Definition extractIterator (field itField : Field) : ExtError + option Iterator :=
  if decide (itField ≠ "") then
    let '(iterator, err) := GetIterator itField in
    match err with
    | Some e => inl e
    | None => inr iterator
    end
  else inr (scanIterator (Split field) "" None).

(** Lines 122-149: the register of an identifier that has an iterator.
    Returns the register id that goes on to [GetEvaluator]. *)
Definition bindRegister (pos : Position) (field itField : Field)
    (regID : RegisterID) (iterator : option Iterator) (st : state)
    : (error ExtError + RegisterID) * state :=
  match iterator with
  | None => (inr regID, st)
  | Some it =>
      if decide (regID ≠ "" ∧ regID ≠ "_") then
        (inl (RegisterNameNotAllowed pos regID "only `_` is supported"), st)
      else
        let '(regID, st) :=
          if decide (regID = "" ∨ regID = "_")
          then (RandString (rand st) 8, tick_rand st)
          else (regID, st) in
        match registersInfo st !! regID with
        | Some info =>
            if decide (reg_field info ≠ itField) then
              (inl (RegisterMultipleFields pos regID "used by multiple fields"), st)
            else
              let info :=
                mkRegisterInfo (reg_field info) (reg_iterator info)
                  (<[field := true]> (reg_subFields info)) in
              (inr regID, set_registersInfo st (<[regID := info]> (registersInfo st)))
        | None =>
            let info := mkRegisterInfo itField it {[ field := true ]} in
            (inr regID, set_registersInfo st (<[regID := info]> (registersInfo st)))
        end
  end.

Definition lookupMacro (st : state) (name : string) : option Macro :=
  match macros st with
  | Some ms => ms !! name
  | None => None
  end.

Definition identToEvaluator (obj : ident) (opts : Opts) (st : state)
    : result * state :=
  match Constants opts !! ident_Ident obj with
  | Some accessor => (Ok accessor (ident_Pos obj), st)
  | None =>
  match lookupMacro st (ident_Ident obj) with
  | Some macro => (Ok (Macro_Value macro) (ident_Pos obj), st)
  | None =>
  match extractField (ident_Ident obj) with
  | inl err => (Err (ident_Pos obj) err, st)
  | inr (field, itField, regID) =>
  let '(field, itField) := remapLegacy opts field itField in
  match extractIterator field itField with
  | inl err => (Err (ident_Pos obj) (External err), st)
  | inr iterator =>
  match bindRegister (ident_Pos obj) field itField regID iterator st with
  | (inl err, st) => (Err (ident_Pos obj) err, st)
  | (inr regID, st) =>
  match GetEvaluator field regID with
  | inl err => (Err (ident_Pos obj) (External err), st)
  | inr accessor => (Ok accessor (ident_Pos obj), UpdateFields st field)
  end end end end end end.

End Resolver.

(** ** The node compiler: [arrayToEvaluator] and [nodeToEvaluator] *)

Section Compiler.
Context `{Externals} {model : Model} {ops : Operators}.

(** [v, pos, err = f(...); if err != nil { return nil, pos, err }] *)
Definition andThen (r : result * state)
    (k : value -> Position -> state -> result * state) : result * state :=
  match r with
  | (Ok v pos, st) => k v pos st
  | (Err pos err, st) => (Err pos err, st)
  | (Panic, st) => (Panic, st)
  end.

(** [b, err = op(...); if err != nil { return nil, errPos, err };
    return b, okPos, nil] *)
Definition retBool (errPos okPos : Position)
    (r : (ExtError + BoolEvaluator) * state) : result * state :=
  match r with
  | (inl err, st) => (Err errPos (External err), st)
  | (inr b, st) => (Ok (BoolEv b) okPos, st)
  end.

(** The same, ending in [return Not(b, opts, state), okPos, nil]. *)
Definition retNot (errPos okPos : Position) (opts : Opts)
    (r : (ExtError + BoolEvaluator) * state) : result * state :=
  match r with
  | (inl err, st) => (Err errPos (External err), st)
  | (inr b, st) => let '(nb, st) := Not b opts st in (Ok (BoolEv nb) okPos, st)
  end.

Definition retInt (errPos okPos : Position)
    (r : (ExtError + IntEvaluator) * state) : result * state :=
  match r with
  | (inl err, st) => (Err errPos (External err), st)
  | (inr i, st) => (Ok (IntEv i) okPos, st)
  end.

(** The return that ends [nodeToEvaluator], reached from the comparison
    case when no branch of its switches returns. *)
Definition unknownEntity (typeName : string) (st : state) : result * state :=
  (Err Position0 (ErrorAt Position0 ("unknown entity '" ++ typeName ++ "'")), st).

(** Zero values of the array evaluators ([var evaluator T]). *)
Definition IntArrayEvaluator0 : IntArrayEvaluator :=
  mkIntArrayEvaluator None [] 0.

Definition StringArrayEvaluator0 : StringArrayEvaluator :=
  mkStringArrayEvaluator None [] 0 [].

(** Lines 161-226. In the branch of the string members the file holds
    both sides of a merge; the side followed is the one that calls
    [AppendMembers], which closes the branch and is the contract the
    specification keeps. The list of numbers is returned as a struct, not
    as a pointer. *)
Definition arrayToEvaluator (array : Array) (opts : Opts) (st : state)
    : result * state :=
  if negb (Nat.eqb (length (Array_Numbers array)) 0) then
    (Ok (IntArrayStruct (IntArray_AppendMembers IntArrayEvaluator0 (Array_Numbers array)))
        (Array_Pos array), st)
  else if negb (Nat.eqb (length (Array_StringMembers array)) 0) then
    match StringArray_AppendMembers StringArrayEvaluator0 (Array_StringMembers array) with
    | inl err => (Err (Array_Pos array) (ErrorAt (Array_Pos array) (errorString err)), st)
    | inr evaluator => (Ok (StringArrayEv evaluator) (Array_Pos array), st)
    end
  else
    match Array_Ident array with
    | Some name =>
        match lookupMacro st name with
        | Some macro => (Ok (Macro_Value macro) (Array_Pos array), st)
        | None => identToEvaluator (mkIdent (Array_Pos array) name) opts st
        end
    | None =>
        (Err (Array_Pos array) (ErrorAt (Array_Pos array) "unknow array element type"), st)
    end.

(** Lines 334-407: the array comparison once both operands are compiled.
    [objPos] is [obj.Pos], [pos] the position the right operand returned. *)
Definition arrayComparison (objPos pos : Position) (op : string)
    (unary next : value) (opts : Opts) (st : state) : result * state :=
  let ret r :=
    if String.eqb op "notin" then retNot pos objPos opts r
    else retBool pos objPos r in
  match unary with
  | BoolEv unary =>
      match next with
      | BoolArrayEv nextBool => ret (ArrayBoolContains unary nextBool opts st)
      | _ => (Err pos (TypeError pos KArray), st)
      end
  | StringEv unary =>
      match next with
      | StringArrayEv nextString => ret (ArrayStringContains unary nextString opts st)
      | _ => (Err pos (TypeError pos KArray), st)
      end
  | StringArrayEv unary =>
      match next with
      | StringArrayEv nextStringArray =>
          ret (ArrayStringMatches unary nextStringArray opts st)
      | _ => (Err pos (TypeError pos KArray), st)
      end
  | IntEv unary =>
      match next with
      | IntArrayEv nextInt => ret (ArrayIntEquals unary nextInt opts st)
      | _ => (Err pos (TypeError pos KArray), st)
      end
  | IntArrayEv unary =>
      match next with
      | IntArrayEv nextIntArray => ret (ArrayIntMatches unary nextIntArray opts st)
      | _ => (Err pos (TypeError pos KArray), st)
      end
  | _ => (Err pos (TypeError pos KArray), st)
  end.

(** [e.OpOverrides != nil && e.OpOverrides.StringEquals != nil] *)
Definition overrideOf (e : StringEvaluator) : option OverrideFn :=
  match String_OpOverrides e with
  | Some overrides => Override_StringEquals overrides
  | None => None
  end.

(** The guard shared by the four pattern-match branches: the right
    operand must be static, and its pattern is compiled. *)
Definition staticPattern (objPos : Position) (nextString : StringEvaluator)
    (st : state) (k : StringEvaluator -> result * state) : result * state :=
  match String_EvalFnc nextString with
  | Some _ => (Err objPos (ErrNonStaticPattern (String_Field nextString)), st)
  | None =>
      match compilePattern nextString with
      | inl err => (Err objPos (ErrorAt objPos (errorString err)), st)
      | inr nextString => k nextString
      end
  end.

(** Lines 414-723: the scalar comparison once both operands are
    compiled. *)
Definition scalarComparisonOp (objPos pos : Position) (op : string)
    (unary next : value) (opts : Opts) (st : state) : result * state :=
  match unary with
  | BoolEv unary =>
      match next with
      | BoolEv nextBool =>
          if String.eqb op "!=" then
            retNot pos objPos opts (BoolEquals unary nextBool opts st)
          else if String.eqb op "==" then
            retBool pos objPos (BoolEquals unary nextBool opts st)
          else (Err pos (OpUnknownError objPos op), st)
      | _ => (Err pos (TypeError pos KBool), st)
      end
  | BoolArrayEv unary =>
      match next with
      | BoolEv nextBool =>
          if String.eqb op "!=" then
            retNot pos objPos opts (ArrayBoolEquals nextBool unary opts st)
          else if String.eqb op "==" then
            retBool pos objPos (ArrayBoolEquals nextBool unary opts st)
          else (Err pos (OpUnknownError objPos op), st)
      | _ => (Err pos (TypeError pos KBool), st)
      end
  | StringEv unary =>
      match next with
      | StringEv nextString =>
          if String.eqb op "!=" then
            retNot objPos objPos opts (StringEquals unary nextString opts st)
          else if String.eqb op "!~" then
            staticPattern objPos nextString st (fun nextString =>
              retNot objPos objPos opts (StringEquals unary nextString opts st))
          else if String.eqb op "==" then
            match overrideOf unary with
            | Some f =>
                retBool objPos objPos (callStringEquals f unary nextString opts st)
            | None =>
                match overrideOf nextString with
                | Some f =>
                    retBool objPos objPos (callStringEquals f unary nextString opts st)
                | None =>
                    retBool objPos objPos (StringEquals unary nextString opts st)
                end
            end
          else if String.eqb op "=~" then
            staticPattern objPos nextString st (fun nextString =>
              retBool objPos objPos (StringEquals unary nextString opts st))
          else (Err pos (OpUnknownError objPos op), st)
      | _ => (Err pos (TypeError pos KString), st)
      end
  | StringArrayEv unary =>
      match next with
      | StringEv nextString =>
          if String.eqb op "!=" then
            retNot objPos objPos opts (ArrayStringContains nextString unary opts st)
          else if String.eqb op "==" then
            retBool objPos objPos (ArrayStringContains nextString unary opts st)
          else if String.eqb op "!~" then
            staticPattern objPos nextString st (fun nextString =>
              retNot objPos objPos opts (ArrayStringContains nextString unary opts st))
          else if String.eqb op "=~" then
            staticPattern objPos nextString st (fun nextString =>
              retBool objPos objPos (ArrayStringContains nextString unary opts st))
          else unknownEntity "*ast.Comparison" st
      | _ => (Err pos (TypeError pos KString), st)
      end
  | IntEv unary =>
      match next with
      | IntEv nextInt =>
          if isDuration nextInt then
            if String.eqb op "<" then
              retBool objPos objPos (DurationLesserThan unary nextInt opts st)
            else if String.eqb op "<=" then
              retBool objPos objPos (DurationLesserOrEqualThan unary nextInt opts st)
            else if String.eqb op ">" then
              retBool objPos objPos (DurationGreaterThan unary nextInt opts st)
            else if String.eqb op ">=" then
              retBool objPos objPos (DurationGreaterOrEqualThan unary nextInt opts st)
            else (Err pos (TypeError pos KInt), st)
          else
            if String.eqb op "<" then
              retBool objPos objPos (LesserThan unary nextInt opts st)
            else if String.eqb op "<=" then
              retBool objPos objPos (LesserOrEqualThan unary nextInt opts st)
            else if String.eqb op ">" then
              retBool objPos objPos (GreaterThan unary nextInt opts st)
            else if String.eqb op ">=" then
              retBool objPos objPos (GreaterOrEqualThan unary nextInt opts st)
            else if String.eqb op "!=" then
              retNot objPos objPos opts (IntEquals unary nextInt opts st)
            else if String.eqb op "==" then
              retBool objPos objPos (IntEquals unary nextInt opts st)
            else (Err pos (OpUnknownError objPos op), st)
      | IntArrayEv nextIntArray =>
          if String.eqb op "<" then
            retBool objPos objPos (ArrayIntLesserThan unary nextIntArray opts st)
          else if String.eqb op "<=" then
            retBool objPos objPos (ArrayIntLesserOrEqualThan unary nextIntArray opts st)
          else if String.eqb op ">" then
            retBool objPos objPos (ArrayIntGreaterThan unary nextIntArray opts st)
          else if String.eqb op ">=" then
            retBool objPos objPos (ArrayIntGreaterOrEqualThan unary nextIntArray opts st)
          else if String.eqb op "!=" then
            retNot objPos objPos opts (ArrayIntEquals unary nextIntArray opts st)
          else if String.eqb op "==" then
            retBool objPos objPos (ArrayIntEquals unary nextIntArray opts st)
          else (Err pos (OpUnknownError objPos op), st)
      | _ => (Err pos (TypeError pos KInt), st)
      end
  | IntArrayEv unary =>
      match next with
      | IntEv nextInt =>
          if String.eqb op "<" then
            retBool objPos objPos (ArrayIntGreaterThan nextInt unary opts st)
          else if String.eqb op "<=" then
            retBool objPos objPos (ArrayIntGreaterOrEqualThan nextInt unary opts st)
          else if String.eqb op ">" then
            retBool objPos objPos (ArrayIntLesserThan nextInt unary opts st)
          else if String.eqb op ">=" then
            retBool objPos objPos (ArrayIntLesserOrEqualThan nextInt unary opts st)
          else if String.eqb op "!=" then
            retNot objPos objPos opts (ArrayIntEquals nextInt unary opts st)
          else if String.eqb op "==" then
            retBool objPos objPos (ArrayIntEquals nextInt unary opts st)
          else (Err pos (OpUnknownError objPos op), st)
      | _ => (Err pos (TypeError pos KInt), st)
      end
  | _ => unknownEntity "*ast.Comparison" st
  end.

(** Literal evaluators of the [Primary] case; the fields a composite
    literal does not name are zero. *)
Definition numberEvaluator (n : Z) : IntEvaluator :=
  mkIntEvaluator None n 0 false.

Definition durationEvaluator (n : Z) : IntEvaluator :=
  mkIntEvaluator None n 0 true.

Definition stringEvaluator (s : string) (t : FieldValueType) : StringEvaluator :=
  mkStringEvaluator None "" s 0 t None None.

(** [evaluator.Compile()] on a pattern or regexp literal. *)
Definition compiledLiteral (objPos : Position) (evaluator : StringEvaluator)
    (st : state) : result * state :=
  match StringEvaluator_Compile evaluator with
  | inl err => (Err objPos (ErrorAt objPos (errorString err)), st)
  | inr evaluator => (Ok (StringEv evaluator) objPos, st)
  end.

(** Lines 228-814. A child pointer that is nil where the code passes it
    on is dereferenced by the case that receives it: a panic. *)
Fixpoint nodeToEvaluator (obj : node) (opts : Opts) (st : state) {struct obj}
    : result * state :=
  match obj with
  | BooleanExpression expression => nodeToEvaluator expression opts st
  | Expression objPos comparison op next =>
      andThen (nodeToEvaluator comparison opts st) (fun cmp pos st =>
        match op with
        | Some op =>
            match cmp with
            | BoolEv cmpBool =>
                andThen
                  match next with
                  | Some next => nodeToEvaluator next opts st
                  | None => (Panic, st)
                  end
                  (fun next pos st =>
                    match next with
                    | BoolEv nextBool =>
                        if String.eqb op "||" || String.eqb op "or" then
                          retBool objPos objPos (Or cmpBool nextBool opts st)
                        else if String.eqb op "&&" || String.eqb op "and" then
                          retBool objPos objPos (And cmpBool nextBool opts st)
                        else (Err pos (OpUnknownError objPos op), st)
                    | _ => (Err pos (TypeError pos KBool), st)
                    end)
            | _ => (Err objPos (TypeError objPos KBool), st)
            end
        | None => (Ok cmp objPos, st)
        end)
  | BitOperation objPos unary op next =>
      andThen (nodeToEvaluator unary opts st) (fun unary pos st =>
        match op with
        | Some op =>
            match unary with
            | IntEv bitInt =>
                andThen
                  match next with
                  | Some next => nodeToEvaluator next opts st
                  | None => (Panic, st)
                  end
                  (fun next pos st =>
                    match next with
                    | IntEv nextInt =>
                        if String.eqb op "&" then
                          retInt pos objPos (IntAnd bitInt nextInt opts st)
                        else if String.eqb op "|" then
                          retInt pos objPos (IntOr bitInt nextInt opts st)
                        else if String.eqb op "^" then
                          retInt pos objPos (IntXor bitInt nextInt opts st)
                        else (Err pos (OpUnknownError objPos op), st)
                    | _ => (Err pos (TypeError pos KInt), st)
                    end)
            | _ => (Err objPos (TypeError objPos KInt), st)
            end
        | None => (Ok unary objPos, st)
        end)
  | Comparison objPos bitOperation scalar array =>
      andThen (nodeToEvaluator bitOperation opts st) (fun unary pos st =>
        match array with
        | Some array =>
            andThen (arrayToEvaluator (ArrayComparison_Array array) opts st)
              (fun next pos st =>
                arrayComparison objPos pos (ArrayComparison_Op array) unary next opts st)
        | None =>
            match scalar with
            | Some (ScalarComparison _ op next) =>
                andThen (nodeToEvaluator next opts st) (fun next pos st =>
                  scalarComparisonOp objPos pos op unary next opts st)
            | None => (Ok unary pos, st)
            end
        end)
  | ArrayComparisonNode array =>
      arrayToEvaluator (ArrayComparison_Array array) opts st
  | ScalarComparisonNode (ScalarComparison _ _ next) =>
      nodeToEvaluator next opts st
  | Unary objPos op unary primary =>
      match op with
      | Some op =>
          andThen
            match unary with
            | Some unary => nodeToEvaluator unary opts st
            | None => (Panic, st)
            end
            (fun unary pos st =>
              if String.eqb op "!" || String.eqb op "not" then
                match unary with
                | BoolEv unaryBool =>
                    let '(b, st) := Not unaryBool opts st in (Ok (BoolEv b) objPos, st)
                | _ => (Err pos (TypeError pos KBool), st)
                end
              else if String.eqb op "-" then
                match unary with
                | IntEv unaryInt =>
                    let '(i, st) := Minus unaryInt opts st in (Ok (IntEv i) pos, st)
                | _ => (Err pos (TypeError pos KInt), st)
                end
              else if String.eqb op "^" then
                match unary with
                | IntEv unaryInt =>
                    let '(i, st) := IntNot unaryInt opts st in (Ok (IntEv i) pos, st)
                | _ => (Err pos (TypeError pos KInt), st)
                end
              else (Err pos (OpUnknownError objPos op), st))
      | None =>
          match primary with
          | Some primary => nodeToEvaluator primary opts st
          | None => (Panic, st)
          end
      end
  | Primary objPos (Some name) _ _ _ _ _ _ =>
      identToEvaluator (mkIdent objPos name) opts st
  | Primary objPos None (Some number) _ _ _ _ _ =>
      (Ok (IntEv (numberEvaluator number)) objPos, st)
  | Primary objPos None None (Some duration) _ _ _ _ =>
      (Ok (IntEv (durationEvaluator duration)) objPos, st)
  | Primary objPos None None None (Some s) _ _ _ =>
      (Ok (StringEv (stringEvaluator s ScalarValueType)) objPos, st)
  | Primary objPos None None None None (Some pattern) _ _ =>
      compiledLiteral objPos (stringEvaluator pattern PatternValueType) st
  | Primary objPos None None None None None (Some re) _ =>
      compiledLiteral objPos (stringEvaluator re RegexpValueType) st
  | Primary objPos None None None None None None (Some subExpression) =>
      nodeToEvaluator subExpression opts st
  | Primary objPos None None None None None None None =>
      (Err objPos (ErrorAt objPos "unknown primary '*ast.Primary'"), st)
  | ArrayNode array => arrayToEvaluator array opts st
  end.

End Compiler.

(** ** Evaluation and the contract of [Not] *)

Section Evaluation.
Context `{Externals}.

(** Modelled from the spec: the result of a Bool evaluator for a
    Context is its static value when it has no deferred function,
    otherwise what the deferred function returns. *)
Definition evalBool (e : BoolEvaluator) (ctx : Ctx) : bool :=
  match Bool_EvalFnc e with
  | Some f => f ctx
  | None => Bool_Value e
  end.

(** Modelled from the spec: [Not] is defined outside eval.go; the
    evaluator it builds yields, for every Context, the logical negation
    of its operand's result. *)
Definition NotNegates (ops : Operators) : Prop :=
  forall (b : BoolEvaluator) (opts : Opts) (st : state) (ctx : Ctx),
    evalBool (fst (Not b opts st)) ctx = negb (evalBool b ctx).

(** The identifier [name] gets as far as the register step: it is not a
    constant nor a macro, and its extraction, legacy remap and iterator
    lookup give [field], [itField], [regID] and [iterator]. *)
Definition resolves {model : Model} (opts : Opts) (st : state) (name : string)
    (field itField : Field) (regID : RegisterID) (iterator : option Iterator)
    : Prop :=
  Constants opts !! name = None /\
  lookupMacro st name = None /\
  exists field0 itField0 : string,
    extractField (E := ExtError) name = inr (field0, itField0, regID) /\
    remapLegacy opts field0 itField0 = (field, itField) /\
    extractIterator field itField = inr iterator.


(** The entry [bindRegister] writes for the register [g]. *)
Definition boundEntry (st : state) (g : string) (field itField : string)
    (it : Iterator) : registerInfo :=
  match registersInfo st !! g with
  | Some info =>
      mkRegisterInfo (reg_field info) (reg_iterator info)
        (<[field := true]> (reg_subFields info))
  | None => mkRegisterInfo itField it {[ field := true ]}
  end.


(** [st'] keeps the registers of [st]: every id bound in [st] is bound
    in [st'] to the same iterator field and iterator. *)
Definition keepsRegisters (st st' : state) : Prop :=
  forall (r : string) (info : registerInfo),
    registersInfo st !! r = Some info ->
    exists info' : registerInfo,
      registersInfo st' !! r = Some info' /\
      reg_field info' = reg_field info /\
      reg_iterator info' = reg_iterator info.

Definition keeps2 {X Y A : Type} (f : X -> Y -> Opts -> Op A) : Prop :=
  forall (x : X) (y : Y) (opts : Opts) (st : state),
    keepsRegisters st (snd (f x y opts st)).

Definition keeps1 {X A : Type} (f : X -> Opts -> state -> A * state) : Prop :=
  forall (x : X) (opts : Opts) (st : state),
    keepsRegisters st (snd (f x opts st)).

(** A condition on the combinators, which live outside eval.go: whatever
    they do to the compile state, they leave the bound registers bound to
    the same iterator field. Registers are the business of the resolver. *)
Record KeepRegisters (ops : Operators) : Prop := mkKeepRegisters {
  keep_Or : keeps2 Or;
  keep_And : keeps2 And;
  keep_IntAnd : keeps2 IntAnd;
  keep_IntOr : keeps2 IntOr;
  keep_IntXor : keeps2 IntXor;
  keep_ArrayBoolContains : keeps2 ArrayBoolContains;
  keep_ArrayStringContains : keeps2 ArrayStringContains;
  keep_ArrayStringMatches : keeps2 ArrayStringMatches;
  keep_ArrayIntEquals : keeps2 ArrayIntEquals;
  keep_ArrayIntMatches : keeps2 ArrayIntMatches;
  keep_BoolEquals : keeps2 BoolEquals;
  keep_ArrayBoolEquals : keeps2 ArrayBoolEquals;
  keep_StringEquals : keeps2 StringEquals;
  keep_IntEquals : keeps2 IntEquals;
  keep_LesserThan : keeps2 LesserThan;
  keep_LesserOrEqualThan : keeps2 LesserOrEqualThan;
  keep_GreaterThan : keeps2 GreaterThan;
  keep_GreaterOrEqualThan : keeps2 GreaterOrEqualThan;
  keep_DurationLesserThan : keeps2 DurationLesserThan;
  keep_DurationLesserOrEqualThan : keeps2 DurationLesserOrEqualThan;
  keep_DurationGreaterThan : keeps2 DurationGreaterThan;
  keep_DurationGreaterOrEqualThan : keeps2 DurationGreaterOrEqualThan;
  keep_ArrayIntLesserThan : keeps2 ArrayIntLesserThan;
  keep_ArrayIntLesserOrEqualThan : keeps2 ArrayIntLesserOrEqualThan;
  keep_ArrayIntGreaterThan : keeps2 ArrayIntGreaterThan;
  keep_ArrayIntGreaterOrEqualThan : keeps2 ArrayIntGreaterOrEqualThan;
  keep_Not : keeps1 Not;
  keep_Minus : keeps1 Minus;
  keep_IntNot : keeps1 IntNot;
  keep_callStringEquals : forall f : OverrideFn, keeps2 (callStringEquals f)
}.

End Evaluation.

(** ** Vocabulary of the further properties *)

(** [c] occurs in [s]. *)
Fixpoint occurs (c : ascii) (s : string) : bool :=
  match s with
  | EmptyString => false
  | String d s' => Ascii.eqb c d || occurs c s'
  end.

(** Every character of [run] is in the class [k]. *)
Fixpoint allIn (k : regexp.class) (run : string) : bool :=
  match run with
  | EmptyString => true
  | String c run' => regexp.class_matches k c && allIn k run'
  end.

(** A repetition of the class [k] stops in front of [rest]. *)
Definition stopsAt (k : regexp.class) (rest : string) : bool :=
  match rest with
  | EmptyString => true
  | String c _ => negb (regexp.class_matches k c)
  end.

(** An opening bracket, where [t] starts with one, is directly followed by
    a closing bracket. *)
Definition bracketsEmpty (t : string) : Prop :=
  match t with
  | String d rest =>
      Ascii.eqb "[" d = true -> exists rest', rest = String "]" rest'
  | EmptyString => True
  end.

(** The candidate of the prefix loop of [identToEvaluator] after one more
    path element (lines 109-113). *)
Definition growCandidate (candidate node : string) : string :=
  if decide (candidate = "") then node else candidate ++ "." ++ node.


(** The comparison read from the other side. *)
Definition mirror (op : string) : string :=
  if String.eqb op "<" then ">"
  else if String.eqb op "<=" then ">="
  else if String.eqb op ">" then "<"
  else if String.eqb op ">=" then "<="
  else op.

Section Kinds.
Context `{Externals}.

(** The kind a scalar comparison wants on its right, by its left operand
    (none for a left operand that no branch of the switch takes). *)
Definition rightKind (unary : value) : option Kind :=
  match unary with
  | BoolEv _ | BoolArrayEv _ => Some KBool
  | StringEv _ | StringArrayEv _ => Some KString
  | IntEv _ | IntArrayEv _ => Some KInt
  | _ => None
  end.

(** The pairs of operands a scalar comparison has a branch for. *)
Definition scalarPair (unary next : value) : bool :=
  match unary, next with
  | BoolEv _, BoolEv _
  | BoolArrayEv _, BoolEv _
  | StringEv _, StringEv _
  | StringArrayEv _, StringEv _
  | IntEv _, IntEv _
  | IntEv _, IntArrayEv _
  | IntArrayEv _, IntEv _ => true
  | _, _ => false
  end.

(** The pairs of operands an array comparison has a branch for. *)
Definition arrayPair (unary next : value) : bool :=
  match unary, next with
  | BoolEv _, BoolArrayEv _
  | StringEv _, StringArrayEv _
  | StringArrayEv _, StringArrayEv _
  | IntEv _, IntArrayEv _
  | IntArrayEv _, IntArrayEv _ => true
  | _, _ => false
  end.

(** Neither operand of a comparison of two strings carries a
    [StringEquals] override (vacuous for other operands). *)
Definition noOverride (unary next : value) : Prop :=
  forall u n : StringEvaluator,
    unary = StringEv u -> next = StringEv n ->
    overrideOf u = None /\ overrideOf n = None.

End Kinds.

(** ** A concrete world for examples

    Contexts are numbers, iterators and collaborator errors are strings.
    Every combinator returns a static evaluator whose weight tells which
    combinator built it; [Not] negates. The model knows the iterators [a]
    and [c] and the fields under them. *)

Module Fixtures.

Definition externals : Externals := {|
  Ctx := nat;
  Iterator := string;
  ExtError := string;
  errorString := fun e => e;
  Matcher := string;
  OverrideFn := Z;
  Opaque := unit
|}.

#[local] Existing Instance externals.

Definition built (weight : Z) : Op BoolEvaluator :=
  fun st => (inr (mkBoolEvaluator None true weight), st).

Definition builtInt (weight : Z) : Op IntEvaluator :=
  fun st => (inr (mkIntEvaluator None 0 weight false), st).

Definition notModel (b : BoolEvaluator) : BoolEvaluator :=
  mkBoolEvaluator
    (match Bool_EvalFnc b with
     | Some f => Some (fun ctx => negb (f ctx))
     | None => None
     end)
    (negb (Bool_Value b)) (Bool_Weight b).

Definition withRegexp (e : StringEvaluator) : StringEvaluator :=
  mkStringEvaluator (String_EvalFnc e) (String_Field e) (String_Value e)
    (String_Weight e) (String_ValueType e) (String_OpOverrides e)
    (Some (String_Value e)).

Definition memberText (m : StringMember) : string :=
  match Member_Pattern m, Member_Regexp m, Member_String m with
  | Some s, _, _ => s
  | None, Some s, _ => s
  | None, None, Some s => s
  | None, None, None => ""
  end.

Definition operators (tape : nat -> string) : Operators := {|
  Or := fun _ _ _ => built 1;
  And := fun _ _ _ => built 2;
  IntAnd := fun _ _ _ => builtInt 3;
  IntOr := fun _ _ _ => builtInt 4;
  IntXor := fun _ _ _ => builtInt 5;
  ArrayBoolContains := fun _ _ _ => built 6;
  ArrayStringContains := fun _ _ _ => built 7;
  ArrayStringMatches := fun _ _ _ => built 8;
  ArrayIntEquals := fun _ _ _ => built 9;
  ArrayIntMatches := fun _ _ _ => built 10;
  BoolEquals := fun _ _ _ => built 11;
  ArrayBoolEquals := fun _ _ _ => built 12;
  StringEquals := fun _ _ _ => built 13;
  IntEquals := fun _ _ _ => built 14;
  LesserThan := fun _ _ _ => built 15;
  LesserOrEqualThan := fun _ _ _ => built 16;
  GreaterThan := fun _ _ _ => built 17;
  GreaterOrEqualThan := fun _ _ _ => built 18;
  DurationLesserThan := fun _ _ _ => built 19;
  DurationLesserOrEqualThan := fun _ _ _ => built 20;
  DurationGreaterThan := fun _ _ _ => built 21;
  DurationGreaterOrEqualThan := fun _ _ _ => built 22;
  ArrayIntLesserThan := fun _ _ _ => built 23;
  ArrayIntLesserOrEqualThan := fun _ _ _ => built 24;
  ArrayIntGreaterThan := fun _ _ _ => built 25;
  ArrayIntGreaterOrEqualThan := fun _ _ _ => built 26;
  Not := fun b _ st => (notModel b, st);
  Minus := fun i _ st => (mkIntEvaluator None (- Int_Value i) (Int_Weight i) (isDuration i), st);
  IntNot := fun i _ st => (mkIntEvaluator None (Z.lnot (Int_Value i)) (Int_Weight i) (isDuration i), st);
  callStringEquals := fun f _ _ _ => built (100 + f);
  compilePattern := fun e =>
    if String.eqb (String_Value e) "(" then inl "missing closing )" else inr (withRegexp e);
  StringEvaluator_Compile := fun e =>
    if String.eqb (String_Value e) "(" then inl "missing closing )" else inr (withRegexp e);
  IntArray_AppendMembers := fun e l =>
    mkIntArrayEvaluator (IntArray_EvalFnc e) (IntArray_Values e ++ l) (IntArray_Weight e);
  StringArray_AppendMembers := fun e l =>
    inr (mkStringArrayEvaluator (StringArray_EvalFnc e)
           (StringArray_Values e ++ List.map memberText l)
           (StringArray_Weight e) (StringArray_fieldValues e));
  RandString := fun k _ => tape k
|}.

Definition distinctTape (k : nat) : string :=
  match k with
  | 0 => "AAAAAAAA"
  | 1 => "BBBBBBBB"
  | _ => "CCCCCCCC"
  end.

Definition constantTape (k : nat) : string := "AAAAAAAA".

(** The combinators with a generator that returns different ids, and with
    one that always returns the same id. *)
Definition distinct : Operators := operators distinctTape.

Definition constant : Operators := operators constantTape.

Definition fieldEvaluator (field : string) : value :=
  StringEv (mkStringEvaluator (Some (fun _ => field)) field "" 0 ScalarValueType None None).

(** A model with the iterators [a] and [c]; the fields [a.b], [a.c],
    [c.b] and [name] have an evaluator. *)
Definition model : Model := {|
  GetIterator := fun f =>
    if String.eqb f "a" then (Some "iterator of a", None)
    else if String.eqb f "c" then (Some "iterator of c", None)
    else (None, Some ("unknown iterator " ++ f));
  GetEvaluator := fun f _ =>
    if String.eqb f "a.b" || String.eqb f "a.c" || String.eqb f "c.b"
       || String.eqb f "name"
    then inr (fieldEvaluator f)
    else inl ("unknown field " ++ f)
|}.

Definition opts0 : Opts := mkOpts None ∅ ∅.

(** Options whose legacy table renames [a] to [c]. *)
Definition legacyOpts : Opts := mkOpts (Some {[ "a" := "c" ]}) ∅ ∅.


(** A state in which the id that [constantTape] yields is already bound
    to the iterator field [c]. *)
Definition boundState : state :=
  mkState None {[ "AAAAAAAA" := mkRegisterInfo "c" "iterator of c" {[ "c.b" := true ]} ]} ∅ 0.

Definition state0 : state := mkState None ∅ ∅ 0.

Definition p0 : Position := mkPosition "rule" 0 1 1.

(** AST of a literal operand, wrapped as the grammar nests it. *)
Definition primary (p : node) : node :=
  BitOperation p0 (Unary p0 None None (Some p)) None None.

Definition number (n : Z) : node :=
  primary (Primary p0 None (Some n) None None None None None).

Definition duration (n : Z) : node :=
  primary (Primary p0 None None (Some n) None None None None).

Definition text (s : string) : node :=
  primary (Primary p0 None None None (Some s) None None None).

Definition name (s : string) : node :=
  primary (Primary p0 (Some s) None None None None None None).

(** [left op right] *)
Definition scalar (left : node) (op : string) (right : node) : node :=
  Comparison p0 left (Some (ScalarComparison p0 op (Comparison p0 right None None))) None.

(** [left op [members]] *)
Definition membership (left : node) (op : string) (members : list string) : node :=
  Comparison p0 left None
    (Some (mkArrayComparison p0 op
       (mkArray p0 [] (List.map (fun s => mkStringMember (Some s) None None) members) None))).


(** Options with a constant [ports], an array of integers. *)
Definition arrayOpts : Opts :=
  mkOpts None {[ "ports" := IntArrayEv (mkIntArrayEvaluator None [22; 80]%Z 0) ]} ∅.


(** [left op right] for two literals, as a bit operation. *)
Definition bitwise (left : Z) (op : string) (right : Z) : node :=
  BitOperation p0
    (Unary p0 None None (Some (Primary p0 None (Some left) None None None None None)))
    (Some op) (Some (number right)).

(** [op operand] for a literal. *)
Definition unaryOf (op : string) (operand : Z) : node :=
  Unary p0 (Some op)
    (Some (Unary p0 None None
             (Some (Primary p0 None (Some operand) None None None None None))))
    None.

(** [left op [numbers]] *)
Definition numberMembership (left : node) (op : string) (numbers : list Z) : node :=
  Comparison p0 left None (Some (mkArrayComparison p0 op (mkArray p0 numbers [] None))).

End Fixtures.

(** * Properties *)

(** ** [extractField] on concrete identifiers *)

Example extractField_plain :
  extractField (E := unit) "process.file.name" = inr ("process.file.name", "", "").
Proof. reflexivity. Qed.

Example extractField_register :
  extractField (E := unit) "a.b[reg].c" = inr ("a.b.c", "a.b", "reg").
Proof. reflexivity. Qed.

Example extractField_anonymous :
  extractField (E := unit) "a[_].b" = inr ("a.b", "a", "_").
Proof. reflexivity. Qed.

Example extractField_empty_brackets :
  extractField (E := unit) "a[].b" = inr ("a[].b", "a[].b", "").
Proof. reflexivity. Qed.

Example Split_examples :
  Split "a.b.c" = ["a"; "b"; "c"] /\ Split "" = [""] /\ Split ".a" = [""; "a"].
Proof. repeat split. Qed.

(** [FindStringSubmatch] returns nil or the match and one entry per
    group: never another number of entries. *)
Lemma FindStringSubmatch_length (re : regexp.Regexp) (src : string) :
  length (regexp.FindStringSubmatch re src) = 0 \/
  length (regexp.FindStringSubmatch re src) = S (regexp.NumSubexp re).
Proof.
  unfold regexp.FindStringSubmatch.
  destruct (regexp.findFrom re src 0) as [[[b e] cs]|].
  - right. cbn [length]. now rewrite length_map, length_seq.
  - now left.
Qed.

(** X1: the error branch of [extractField] is dead: whatever the identifier,
    the function returns a triple. *)
Lemma extractField_never_fails (E : Type) (field : string) :
  exists r : string * string * string, extractField (E := E) field = inr r.
Proof.
  unfold extractField.
  destruct (FindStringSubmatch_length re_register field) as [-> | ->];
    eexists; reflexivity.
Qed.

(** C4: an identifier with two bracket groups is not rejected;
    [extractField] returns the first register and, as field and as
    iterator field, the text up to the last bracket group. *)
Theorem extractField_two_groups :
  extractField (E := unit) "a[x].b[y]" = inr ("a[x].b", "a[x].b", "x").
Proof. reflexivity. Qed.

(** ** [identToEvaluator] *)

Section ResolverProperties.
Context `{Externals} {model : Model} {ops : Operators}.

Lemma registersInfo_tick (st : state) :
  registersInfo (tick_rand st) = registersInfo st.
Proof. reflexivity. Qed.

(** With an iterator and the placeholder register, [bindRegister] draws
    an id from [RandString] and either reports a conflict or writes
    [boundEntry] under that id. *)
Lemma bindRegister_anonymous (pos : Position) (field itField regID : string)
    (it : Iterator) (st : state) :
  regID = "" \/ regID = "_" ->
  let g := RandString (rand st) 8 in
  bindRegister pos field itField regID (Some it) st =
    match registersInfo st !! g with
    | Some info =>
        if decide (reg_field info ≠ itField) then
          (inl (RegisterMultipleFields pos g "used by multiple fields"), tick_rand st)
        else
          (inr g, set_registersInfo (tick_rand st)
                    (<[g := boundEntry st g field itField it]> (registersInfo st)))
    | None =>
        (inr g, set_registersInfo (tick_rand st)
                  (<[g := boundEntry st g field itField it]> (registersInfo st)))
    end.
Proof.
  intros Hreg g. unfold bindRegister, boundEntry.
  destruct (decide (regID ≠ "" ∧ regID ≠ "_")) as [[H1 H2]|_].
  { destruct Hreg; contradiction. }
  destruct (decide (regID = "" ∨ regID = "_")) as [_|Hn]; [|contradiction].
  rewrite registersInfo_tick. fold g.
  destruct (registersInfo st !! g) as [info|]; [|reflexivity].
  destruct (decide (reg_field info ≠ itField)); reflexivity.
Qed.

(** [bindRegister] never changes the iterator field or the iterator of an
    id that is already bound, and only grows its subfield set. *)
Lemma bindRegister_preserves (pos : Position) (field itField regID : string)
    (iterator : option Iterator) (st : state) (r : string) (info : registerInfo) :
  registersInfo st !! r = Some info ->
  exists info' : registerInfo,
    registersInfo (snd (bindRegister pos field itField regID iterator st)) !! r
      = Some info' /\
    reg_field info' = reg_field info /\
    reg_iterator info' = reg_iterator info /\
    (forall f : string, reg_subFields info !! f = Some true ->
                        reg_subFields info' !! f = Some true).
Proof.
  intros Hr. unfold bindRegister.
  destruct iterator as [it|]; [|exists info; auto].
  destruct (decide (regID ≠ "" ∧ regID ≠ "_")); [exists info; auto|].
  destruct (decide (regID = "" ∨ regID = "_")).
  - rewrite registersInfo_tick.
    destruct (registersInfo st !! RandString (rand st) 8) as [old|] eqn:Hg.
    + destruct (decide (reg_field old ≠ itField)); [exists info; auto|].
      cbn. destruct (decide (r = RandString (rand st) 8)) as [->|Hne].
      * rewrite lookup_insert_eq. replace old with info by congruence.
        eexists; repeat split; cbn.
        intros f Hf. destruct (decide (f = field)) as [->|Hf'].
        -- apply lookup_insert_eq.
        -- now rewrite lookup_insert_ne.
      * rewrite lookup_insert_ne by congruence. exists info; auto.
    + cbn. rewrite lookup_insert_ne by congruence. exists info; auto.
  - destruct (registersInfo st !! regID) as [old|] eqn:Hg.
    + destruct (decide (reg_field old ≠ itField)); [exists info; auto|].
      cbn. destruct (decide (r = regID)) as [->|Hne].
      * rewrite lookup_insert_eq. replace old with info by congruence.
        eexists; repeat split; cbn.
        intros f Hf. destruct (decide (f = field)) as [->|Hf'].
        -- apply lookup_insert_eq.
        -- now rewrite lookup_insert_ne.
      * rewrite lookup_insert_ne by congruence. exists info; auto.
    + cbn. rewrite lookup_insert_ne by congruence. exists info; auto.
Qed.

(** An identifier that reaches the register step: the rest of
    [identToEvaluator] is the register step followed by [GetEvaluator]. *)
Lemma identToEvaluator_resolved (pos : Position) (name : string) (opts : Opts)
    (st : state) (field itField regID : string) (iterator : option Iterator) :
  resolves opts st name field itField regID iterator ->
  identToEvaluator (mkIdent pos name) opts st =
    match bindRegister pos field itField regID iterator st with
    | (inl err, st') => (Err pos err, st')
    | (inr regID', st') =>
        match GetEvaluator field regID' with
        | inl err => (Err pos (External err), st')
        | inr accessor => (Ok accessor pos, UpdateFields st' field)
        end
    end.
Proof.
  intros (Hc & Hm & f0 & i0 & He & Hr & Hi).
  unfold identToEvaluator. cbn [ident_Ident ident_Pos].
  rewrite Hc, Hm, He, Hr, Hi. reflexivity.
Qed.

(** The registers after [identToEvaluator] are those of the initial
    state or those [bindRegister] left. *)
Lemma identToEvaluator_registers (obj : ident) (opts : Opts) (st : state) :
  registersInfo (snd (identToEvaluator obj opts st)) = registersInfo st \/
  exists (field itField regID : string) (iterator : option Iterator),
    registersInfo (snd (identToEvaluator obj opts st)) =
    registersInfo (snd (bindRegister (ident_Pos obj) field itField regID iterator st)).
Proof.
  unfold identToEvaluator.
  destruct (Constants opts !! ident_Ident obj); [now left|].
  destruct (lookupMacro st (ident_Ident obj)); [now left|].
  destruct (extractField (ident_Ident obj)) as [e|[[f i] r]]; [now left|].
  destruct (remapLegacy opts f i) as [f' i'].
  destruct (extractIterator f' i') as [e|it]; [now left|].
  right. exists f', i', r, it.
  destruct (bindRegister (ident_Pos obj) f' i' r it st) as [[e|g] st'] eqn:Hb;
    [reflexivity|].
  destruct (GetEvaluator f' g); reflexivity.
Qed.

(** When [bindRegister] succeeds for an identifier that has an iterator,
    the id it returns is bound to [boundEntry], which holds the field; the
    field set of the state is untouched. *)
Lemma bindRegister_binds (pos : Position) (field itField regID : string)
    (it : Iterator) (st st1 : state) (g : string) :
  bindRegister pos field itField regID (Some it) st = (inr g, st1) ->
  registersInfo st1 = <[g := boundEntry st g field itField it]> (registersInfo st) /\
  reg_subFields (boundEntry st g field itField it) !! field = Some true /\
  fields st1 = fields st.
Proof.
  unfold bindRegister, boundEntry.
  destruct (decide (regID ≠ "" ∧ regID ≠ "_")); [discriminate|].
  destruct (decide (regID = "" ∨ regID = "_")).
  - rewrite registersInfo_tick.
    destruct (registersInfo st !! RandString (rand st) 8) as [old|] eqn:Hg.
    + destruct (decide (reg_field old ≠ itField)); [discriminate|].
      intros [= <- <-]. rewrite Hg. cbn. repeat split. apply lookup_insert_eq.
    + intros [= <- <-]. rewrite Hg. cbn. repeat split. apply lookup_insert_eq.
  - destruct (registersInfo st !! regID) as [old|] eqn:Hg.
    + destruct (decide (reg_field old ≠ itField)); [discriminate|].
      intros [= <- <-]. rewrite Hg. cbn. repeat split. apply lookup_insert_eq.
    + intros [= <- <-]. rewrite Hg. cbn. repeat split. apply lookup_insert_eq.
Qed.


(** The state an anonymous resolution leaves: the macros are the same,
    one [RandString] call was made, and the registers are those of
    [bindRegister_anonymous]. *)
Lemma identToEvaluator_anonymous (pos : Position) (name : string) (opts : Opts)
    (st : state) (field itField regID : string) (it : Iterator) :
  resolves opts st name field itField regID (Some it) ->
  regID = "" \/ regID = "_" ->
  let g := RandString (rand st) 8 in
  let st' := snd (identToEvaluator (mkIdent pos name) opts st) in
  macros st' = macros st /\
  rand st' = S (rand st) /\
  registersInfo st' =
    match registersInfo st !! g with
    | Some info =>
        if decide (reg_field info ≠ itField) then registersInfo st
        else <[g := boundEntry st g field itField it]> (registersInfo st)
    | None => <[g := boundEntry st g field itField it]> (registersInfo st)
    end.
Proof.
  intros Hres Hreg g st'. subst st'.
  rewrite (identToEvaluator_resolved pos _ _ _ _ _ _ _ Hres).
  rewrite (bindRegister_anonymous pos field itField regID it st Hreg).
  fold g.
  destruct (registersInfo st !! g) as [info|].
  - destruct (decide (reg_field info ≠ itField)); [now cbn|].
    destruct (GetEvaluator field g); now cbn.
  - destruct (GetEvaluator field g); now cbn.
Qed.

(** C8: every register id stays bound to the iterator field it was bound
    to (and to its iterator, its subfield set only growing) across
    [identToEvaluator]; resolving an id that exists with another iterator
    field returns [RegisterMultipleFields] and leaves the registers as they
    were; with the same iterator field the only change is the new field in
    the subfield set of the entry. *)
Theorem register_denotes_one_field (pos : Position) (name : string)
    (opts : Opts) (st : state) :
  (forall (r : string) (info : registerInfo),
      registersInfo st !! r = Some info ->
      exists info' : registerInfo,
        registersInfo (snd (identToEvaluator (mkIdent pos name) opts st)) !! r
          = Some info' /\
        reg_field info' = reg_field info /\
        reg_iterator info' = reg_iterator info /\
        (forall f : string, reg_subFields info !! f = Some true ->
                            reg_subFields info' !! f = Some true)) /\
  (forall (field itField regID : string) (it : Iterator) (info : registerInfo),
      resolves opts st name field itField regID (Some it) ->
      regID = "" \/ regID = "_" ->
      registersInfo st !! RandString (rand st) 8 = Some info ->
      let g := RandString (rand st) 8 in
      (reg_field info ≠ itField ->
         fst (identToEvaluator (mkIdent pos name) opts st) =
           Err pos (RegisterMultipleFields pos g "used by multiple fields") /\
         registersInfo (snd (identToEvaluator (mkIdent pos name) opts st)) =
           registersInfo st) /\
      (reg_field info = itField ->
         registersInfo (snd (identToEvaluator (mkIdent pos name) opts st)) =
           <[g := mkRegisterInfo (reg_field info) (reg_iterator info)
                    (<[field := true]> (reg_subFields info))]> (registersInfo st))).
Proof.
  split.
  - intros r info Hr.
    destruct (identToEvaluator_registers (mkIdent pos name) opts st)
      as [-> | (f & i & g & it & ->)].
    + exists info; auto.
    + now apply bindRegister_preserves.
  - intros field itField regID it info Hres Hreg Hg g. split.
    + intros Hne.
      rewrite (identToEvaluator_resolved pos _ _ _ _ _ _ _ Hres).
      rewrite (bindRegister_anonymous pos field itField regID it st Hreg).
      subst g. cbv zeta. rewrite Hg.
      destruct (decide (reg_field info ≠ itField)); [|contradiction].
      now cbn.
    + intros Heq.
      destruct (identToEvaluator_anonymous pos name opts st field itField regID it
                  Hres Hreg) as (_ & _ & ->).
      subst g. rewrite Hg.
      destruct (decide (reg_field info ≠ itField)); [contradiction|].
      unfold boundEntry. now rewrite Hg.
Qed.

(** C10: when the register step has bound or extended an entry and
    [GetEvaluator] then fails, [identToEvaluator] returns that error in the
    state the register step left: the entry is there, with the field in
    its subfield set, while the field set of the state is not updated. *)
Theorem binding_survives_GetEvaluator_error (pos : Position) (name : string)
    (opts : Opts) (st st1 : state) (field itField regID g : string)
    (it : Iterator) (e : ExtError) :
  resolves opts st name field itField regID (Some it) ->
  bindRegister pos field itField regID (Some it) st = (inr g, st1) ->
  GetEvaluator field g = inl e ->
  identToEvaluator (mkIdent pos name) opts st = (Err pos (External e), st1) /\
  registersInfo st1 = <[g := boundEntry st g field itField it]> (registersInfo st) /\
  (exists info : registerInfo,
      registersInfo st1 !! g = Some info /\
      reg_subFields info !! field = Some true) /\
  fields st1 = fields st.
Proof.
  intros Hres Hbind Hget.
  destruct (bindRegister_binds _ _ _ _ _ _ _ _ Hbind) as (Hregs & Hsub & Hfields).
  rewrite (identToEvaluator_resolved pos _ _ _ _ _ _ _ Hres), Hbind, Hget.
  repeat split; try assumption.
  exists (boundEntry st g field itField it). split; [|assumption].
  rewrite Hregs. apply lookup_insert_eq.
Qed.


End ResolverProperties.

(** ** [nodeToEvaluator]: comparisons *)

Section CompilerProperties.
Context `{Externals} {model : Model} {ops : Operators}.

(** A scalar comparison compiles its left operand, then its right operand
    in the state the left one left, then dispatches on the two values. *)
Lemma nodeToEvaluator_scalar (objPos scPos : Position) (bit next : node)
    (op : string) (opts : Opts) (st : state) :
  nodeToEvaluator
    (Comparison objPos bit (Some (ScalarComparison scPos op next)) None) opts st =
  andThen (nodeToEvaluator bit opts st) (fun unary _ st1 =>
    andThen (nodeToEvaluator next opts st1) (fun nextv pos st2 =>
      scalarComparisonOp objPos pos op unary nextv opts st2)).
Proof. reflexivity. Qed.

Lemma nodeToEvaluator_scalar_values (objPos scPos p1 p2 : Position)
    (bit next : node) (op : string) (opts : Opts) (st st1 st2 : state)
    (unary nextv : value) :
  nodeToEvaluator bit opts st = (Ok unary p1, st1) ->
  nodeToEvaluator next opts st1 = (Ok nextv p2, st2) ->
  nodeToEvaluator
    (Comparison objPos bit (Some (ScalarComparison scPos op next)) None) opts st =
  scalarComparisonOp objPos p2 op unary nextv opts st2.
Proof.
  intros Hl Hr. rewrite nodeToEvaluator_scalar, Hl. cbn [andThen].
  rewrite Hr. reflexivity.
Qed.

(** An array comparison compiles its left operand, then the array, then
    dispatches. *)
Lemma nodeToEvaluator_array (objPos : Position) (bit : node)
    (scalar : option scalarComparison) (array : ArrayComparison)
    (opts : Opts) (st : state) :
  nodeToEvaluator (Comparison objPos bit scalar (Some array)) opts st =
  andThen (nodeToEvaluator bit opts st) (fun unary _ st1 =>
    andThen (arrayToEvaluator (ArrayComparison_Array array) opts st1)
      (fun nextv pos st2 =>
        arrayComparison objPos pos (ArrayComparison_Op array) unary nextv opts st2)).
Proof. reflexivity. Qed.

(** C1 (as the code has it): between two Int evaluators the ordering
    operators go to the duration comparisons when the right operand carries
    the duration flag and to the plain comparisons when it does not; the
    flag of the left operand plays no part. *)
Theorem ordering_dispatch_on_right_flag (objPos scPos p1 p2 : Position)
    (bit next : node) (opts : Opts) (st st1 st2 : state)
    (unary nextInt : IntEvaluator) :
  nodeToEvaluator bit opts st = (Ok (IntEv unary) p1, st1) ->
  nodeToEvaluator next opts st1 = (Ok (IntEv nextInt) p2, st2) ->
  let compile op :=
    nodeToEvaluator
      (Comparison objPos bit (Some (ScalarComparison scPos op next)) None) opts st in
  (isDuration nextInt = true ->
     compile "<" = retBool objPos objPos (DurationLesserThan unary nextInt opts st2) /\
     compile "<=" = retBool objPos objPos (DurationLesserOrEqualThan unary nextInt opts st2) /\
     compile ">" = retBool objPos objPos (DurationGreaterThan unary nextInt opts st2) /\
     compile ">=" = retBool objPos objPos (DurationGreaterOrEqualThan unary nextInt opts st2)) /\
  (isDuration nextInt = false ->
     compile "<" = retBool objPos objPos (LesserThan unary nextInt opts st2) /\
     compile "<=" = retBool objPos objPos (LesserOrEqualThan unary nextInt opts st2) /\
     compile ">" = retBool objPos objPos (GreaterThan unary nextInt opts st2) /\
     compile ">=" = retBool objPos objPos (GreaterOrEqualThan unary nextInt opts st2)).
Proof.
  intros Hl Hr compile. subst compile. cbv beta.
  split; intros Hd; repeat split;
    rewrite (nodeToEvaluator_scalar_values _ _ _ _ _ _ _ _ _ _ _ _ _ Hl Hr);
    unfold scalarComparisonOp; rewrite Hd; reflexivity.
Qed.

(** C2 (as the code has it): between two Int evaluators whose right
    operand does not carry the duration flag, [==] is [IntEquals] and [!=]
    is [IntEquals] wrapped in [Not], whatever the flag of the left
    operand. *)
Theorem equality_is_IntEquals (objPos scPos p1 p2 : Position)
    (bit next : node) (opts : Opts) (st st1 st2 : state)
    (unary nextInt : IntEvaluator) :
  nodeToEvaluator bit opts st = (Ok (IntEv unary) p1, st1) ->
  nodeToEvaluator next opts st1 = (Ok (IntEv nextInt) p2, st2) ->
  isDuration nextInt = false ->
  let compile op :=
    nodeToEvaluator
      (Comparison objPos bit (Some (ScalarComparison scPos op next)) None) opts st in
  compile "==" = retBool objPos objPos (IntEquals unary nextInt opts st2) /\
  compile "!=" = retNot objPos objPos opts (IntEquals unary nextInt opts st2).
Proof.
  intros Hl Hr Hd compile. subst compile. cbv beta.
  split;
    rewrite (nodeToEvaluator_scalar_values _ _ _ _ _ _ _ _ _ _ _ _ _ Hl Hr);
    unfold scalarComparisonOp; rewrite Hd; reflexivity.
Qed.



(** The two wrappers of the array comparison differ by [Not] alone. *)
Lemma retNot_of_retBool (errPos okPos p : Position) (opts : Opts)
    (r : (ExtError + BoolEvaluator) * state) (v : value) (st' : state) :
  retNot errPos okPos opts r = (Ok v p, st') ->
  exists (b : BoolEvaluator) (st'' : state),
    retBool errPos okPos r = (Ok (BoolEv b) p, st'') /\
    v = BoolEv (fst (Not b opts st'')) /\
    st' = snd (Not b opts st'').
Proof.
  destruct r as [[e|b] s]; cbn; [discriminate|].
  destruct (Not b opts s) as [nb s'] eqn:Hn. intros [= <- <- <-].
  exists b, s. rewrite Hn. auto.
Qed.

(** C9: whenever an array comparison with [notin] compiles, the same
    comparison with [in] compiles too, the [notin] evaluator is [Not] of
    the [in] evaluator, and, [Not] negating, the two give opposite
    booleans for every Context. *)
Theorem notin_negates_in (objPos acPos : Position) (bit : node)
    (scalar : option scalarComparison) (array : Array)
    (opts : Opts) (st st' : state) (v : value) (p : Position) :
  NotNegates ops ->
  nodeToEvaluator
    (Comparison objPos bit scalar (Some (mkArrayComparison acPos "notin" array)))
    opts st = (Ok v p, st') ->
  exists (b : BoolEvaluator) (st'' : state),
    nodeToEvaluator
      (Comparison objPos bit scalar (Some (mkArrayComparison acPos "in" array)))
      opts st = (Ok (BoolEv b) p, st'') /\
    v = BoolEv (fst (Not b opts st'')) /\
    st' = snd (Not b opts st'') /\
    forall ctx : Ctx,
      evalBool (fst (Not b opts st'')) ctx = negb (evalBool b ctx).
Proof.
  intros Hnot. rewrite !nodeToEvaluator_array.
  cbn [ArrayComparison_Array ArrayComparison_Op].
  destruct (nodeToEvaluator bit opts st) as [[unary p1| |] st1];
    cbn [andThen]; try discriminate.
  destruct (arrayToEvaluator array opts st1) as [[nextv p2| |] st2];
    cbn [andThen]; try discriminate.
  unfold arrayComparison.
  change (String.eqb "notin" "notin") with true.
  change (String.eqb "in" "notin") with false. cbv iota.
  intros Hc.
  assert (Hgen : forall r,
             retNot p2 objPos opts r = (Ok v p, st') ->
             exists (b : BoolEvaluator) (st'' : state),
               retBool p2 objPos r = (Ok (BoolEv b) p, st'') /\
               v = BoolEv (fst (Not b opts st'')) /\
               st' = snd (Not b opts st'') /\
               forall ctx : Ctx,
                 evalBool (fst (Not b opts st'')) ctx = negb (evalBool b ctx)).
  { intros r Hr. destruct (retNot_of_retBool _ _ _ _ _ _ _ Hr) as (b & s & H1 & H2 & H3).
    exists b, s. repeat split; try assumption. intros ctx. apply Hnot. }
  destruct unary; try discriminate; destruct nextv; try discriminate;
    apply Hgen; exact Hc.
Qed.

End CompilerProperties.

(** ** The registers across a whole compile *)

Section WholeCompile.
Context `{Externals} {model : Model} {ops : Operators}.

(** [keepsRegisters] is a preorder. *)
Lemma keepsRegisters_refl (st : state) : keepsRegisters st st.
Proof. intros r info Hr. exists info; auto. Qed.

Lemma keepsRegisters_trans (st1 st2 st3 : state) :
  keepsRegisters st1 st2 -> keepsRegisters st2 st3 -> keepsRegisters st1 st3.
Proof.
  intros H12 H23 r info Hr.
  destruct (H12 r info Hr) as (i2 & Hr2 & Hf2 & Hi2).
  destruct (H23 r i2 Hr2) as (i3 & Hr3 & Hf3 & Hi3).
  exists i3. repeat split; congruence.
Qed.

Lemma keepsRegisters_same (st st' : state) :
  registersInfo st' = registersInfo st -> keepsRegisters st st'.
Proof. intros Heq r info Hr. exists info. rewrite Heq. auto. Qed.

Lemma identToEvaluator_keeps (obj : ident) (opts : Opts) (st : state) :
  keepsRegisters st (snd (identToEvaluator obj opts st)).
Proof.
  intros r info Hr.
  destruct (identToEvaluator_registers obj opts st) as [-> | (f & i & g & it & ->)].
  - exists info; auto.
  - destruct (bindRegister_preserves (ident_Pos obj) f i g it st r info Hr)
      as (info' & H1 & H2 & H3 & _).
    exists info'; auto.
Qed.

Lemma andThen_keeps (st : state) (r : result * state)
    (k : value -> Position -> state -> result * state) :
  keepsRegisters st (snd r) ->
  (forall v p s, keepsRegisters s (snd (k v p s))) ->
  keepsRegisters st (snd (andThen r k)).
Proof.
  intros Hr Hk. destruct r as [[v p| |] s]; cbn in *; try assumption.
  eapply keepsRegisters_trans; [exact Hr | apply Hk].
Qed.

Lemma retBool_keeps (st : state) (e o : Position)
    (r : (ExtError + BoolEvaluator) * state) :
  keepsRegisters st (snd r) -> keepsRegisters st (snd (retBool e o r)).
Proof. destruct r as [[?|?] s]; cbn; auto. Qed.

Lemma retInt_keeps (st : state) (e o : Position)
    (r : (ExtError + IntEvaluator) * state) :
  keepsRegisters st (snd r) -> keepsRegisters st (snd (retInt e o r)).
Proof. destruct r as [[?|?] s]; cbn; auto. Qed.

Lemma retNot_keeps (Hk : KeepRegisters ops) (st : state) (e o : Position) (opts : Opts)
    (r : (ExtError + BoolEvaluator) * state) :
  keepsRegisters st (snd r) -> keepsRegisters st (snd (retNot e o opts r)).
Proof.
  destruct r as [[?|b] s]; cbn; auto. intros Hs.
  pose proof (keep_Not _ Hk b opts s) as Hn.
  destruct (Not b opts s) as [nb s']. cbn in *.
  eapply keepsRegisters_trans; eassumption.
Qed.

Lemma arrayToEvaluator_keeps (array : Array) (opts : Opts) (st : state) :
  keepsRegisters st (snd (arrayToEvaluator array opts st)).
Proof.
  unfold arrayToEvaluator.
  destruct (negb _); [apply keepsRegisters_refl|].
  destruct (negb _).
  { destruct (StringArray_AppendMembers _ _); apply keepsRegisters_refl. }
  destruct (Array_Ident array) as [nm|]; [|apply keepsRegisters_refl].
  destruct (lookupMacro st nm); [apply keepsRegisters_refl|].
  apply identToEvaluator_keeps.
Qed.

(** One step of the case analysis of a dispatch: the state is untouched,
    or it is the state a wrapper or a combinator left. *)
Ltac keep_step Hk :=
  first
    [ apply keepsRegisters_refl
    | apply retBool_keeps
    | apply (retNot_keeps Hk)
    | apply retInt_keeps
    | apply Hk ].

Lemma arrayComparison_keeps (Hk : KeepRegisters ops) (objPos pos : Position)
    (op : string) (unary next : value) (opts : Opts) (st : state) :
  keepsRegisters st (snd (arrayComparison objPos pos op unary next opts st)).
Proof.
  unfold arrayComparison.
  destruct unary, next; try apply keepsRegisters_refl;
    destruct (String.eqb op "notin"); repeat keep_step Hk.
Qed.

Lemma scalarComparisonOp_keeps (Hk : KeepRegisters ops) (objPos pos : Position)
    (op : string) (unary next : value) (opts : Opts) (st : state) :
  keepsRegisters st (snd (scalarComparisonOp objPos pos op unary next opts st)).
Proof.
  unfold scalarComparisonOp, staticPattern, unknownEntity.
  destruct unary, next; try apply keepsRegisters_refl;
    repeat match goal with
           | |- context [if ?b then _ else _] => destruct b
           | |- context [match ?x with _ => _ end] => destruct x
           end;
    repeat keep_step Hk.
Qed.

(** X10: across the compile of any node, every register id that is bound stays
    bound to the same iterator field and iterator, provided the combinators
    keep the registers. *)
Theorem nodeToEvaluator_keeps (Hk : KeepRegisters ops) :
  forall (obj : node) (opts : Opts) (st : state),
    keepsRegisters st (snd (nodeToEvaluator obj opts st)).
Proof.
  fix IH 1. intros obj opts st.
  destruct obj as [e | p c op nx | p u op nx | p b sc ac | ac | sc
                   | p op u pr | p id nb du s pa re sub | a].
  - cbn [nodeToEvaluator]. apply IH.
  - cbn [nodeToEvaluator]. apply andThen_keeps; [apply IH|].
    intros v p1 s. destruct op as [op|]; [|apply keepsRegisters_refl].
    destruct v; try apply keepsRegisters_refl.
    apply andThen_keeps.
    { destruct nx as [nx|]; [apply IH | apply keepsRegisters_refl]. }
    intros v' p' s'. destruct v'; try apply keepsRegisters_refl.
    repeat match goal with
           | |- context [if ?b then _ else _] => destruct b
           end; repeat keep_step Hk.
  - cbn [nodeToEvaluator]. apply andThen_keeps; [apply IH|].
    intros v p1 s. destruct op as [op|]; [|apply keepsRegisters_refl].
    destruct v; try apply keepsRegisters_refl.
    apply andThen_keeps.
    { destruct nx as [nx|]; [apply IH | apply keepsRegisters_refl]. }
    intros v' p' s'. destruct v'; try apply keepsRegisters_refl.
    repeat match goal with
           | |- context [if ?b then _ else _] => destruct b
           end; repeat keep_step Hk.
  - cbn [nodeToEvaluator]. apply andThen_keeps; [apply IH|].
    intros v p1 s. destruct ac as [ac|].
    + apply andThen_keeps; [apply arrayToEvaluator_keeps|].
      intros. apply (arrayComparison_keeps Hk).
    + destruct sc as [[p' op nx]|]; [|apply keepsRegisters_refl].
      apply andThen_keeps; [apply IH|].
      intros. apply (scalarComparisonOp_keeps Hk).
  - cbn [nodeToEvaluator]. apply arrayToEvaluator_keeps.
  - destruct sc as [p' op nx]. cbn [nodeToEvaluator]. apply IH.
  - cbn [nodeToEvaluator]. destruct op as [op|].
    + apply andThen_keeps.
      { destruct u as [u|]; [apply IH | apply keepsRegisters_refl]. }
      intros v p' s.
      repeat match goal with
             | |- context [if ?b then _ else _] => destruct b
             end;
        destruct v; try apply keepsRegisters_refl.
      * pose proof (keep_Not _ Hk e opts s). destruct (Not e opts s). assumption.
      * pose proof (keep_Minus _ Hk e opts s). destruct (Minus e opts s). assumption.
      * pose proof (keep_IntNot _ Hk e opts s). destruct (IntNot e opts s). assumption.
    + destruct pr as [pr|]; [apply IH | apply keepsRegisters_refl].
  - destruct id, nb, du, s, pa, re, sub; cbn [nodeToEvaluator];
      try apply identToEvaluator_keeps; try apply keepsRegisters_refl;
      try (unfold compiledLiteral; destruct (StringEvaluator_Compile _);
           apply keepsRegisters_refl).
    apply IH.
  - cbn [nodeToEvaluator]. apply arrayToEvaluator_keeps.
Qed.
End WholeCompile.

(** ** Strings and the matcher *)

Section MatcherProperties.
Import regexp.

Lemma app_cons (c : ascii) (s t : string) : String c s ++ t = String c (s ++ t).
Proof. reflexivity. Qed.

Lemma app_empty (t : string) : "" ++ t = t.
Proof. reflexivity. Qed.

Lemma string_app_nil_r (s : string) : s ++ "" = s.
Proof.
  induction s as [|c s IH]; [reflexivity|]. now rewrite app_cons, IH.
Qed.

Lemma string_app_assoc (a b c : string) : (a ++ b) ++ c = a ++ (b ++ c).
Proof.
  induction a as [|x a IH]; [reflexivity|]. now rewrite !app_cons, IH.
Qed.

Lemma length_app (a b : string) :
  String.length (a ++ b) = String.length a + String.length b.
Proof.
  induction a as [|x a IH]; [reflexivity|]. rewrite app_cons. cbn. now rewrite IH.
Qed.

Lemma substring_skip (p x : string) (n m : nat) :
  substring (String.length p + n) m (p ++ x) = substring n m x.
Proof.
  induction p as [|c p IH]; [reflexivity|]. rewrite app_cons. exact IH.
Qed.

Lemma substring_take (r y : string) :
  substring 0 (String.length r) (r ++ y) = r.
Proof.
  induction r as [|c r IH].
  - destruct y; reflexivity.
  - rewrite app_cons. cbn. now rewrite IH.
Qed.

Lemma star_stop {R} (k : class) (cont : string -> nat -> option R) (rest : string) (pos : nat) :
  stopsAt k rest = true -> star k cont rest pos = cont rest pos.
Proof.
  destruct rest as [|c rest]; cbn; [reflexivity|].
  destruct (class_matches k c); [discriminate | reflexivity].
Qed.

(** Greedy repetition: the longest run wins when the continuation accepts
    what follows it. *)
Lemma star_longest {R} (k : class) (cont : string -> nat -> option R)
    (run rest : string) (pos : nat) (x : R) :
  allIn k run = true -> stopsAt k rest = true ->
  cont rest (pos + String.length run) = Some x ->
  star k cont (run ++ rest) pos = Some x.
Proof.
  revert pos. induction run as [|c run IH]; intros pos Hall Hstop Hc.
  - rewrite app_empty. cbn in Hc. rewrite Nat.add_0_r in Hc. now rewrite star_stop.
  - cbn in Hall. apply andb_prop in Hall as [Hc1 Hrun]. rewrite app_cons. cbn.
    rewrite Hc1.
    rewrite (IH (S pos) Hrun Hstop); [reflexivity|].
    cbn in Hc. now rewrite Nat.add_succ_r in Hc.
Qed.

(** Backtracking: when the continuation refuses every later start, the
    repetition gives back all of [l2]. *)
Lemma star_backtrack {R} (k : class) (cont : string -> nat -> option R)
    (l1 l2 : string) (pos : nat) (x : R) :
  allIn k l1 = true ->
  (forall (t : string) (q : nat), (exists u, u <> "" /\ l2 = u ++ t) -> cont t q = None) ->
  cont l2 (pos + String.length l1) = Some x ->
  star k cont (l1 ++ l2) pos = Some x.
Proof.
  intros Hall Hfail Hc.
  assert (Htail : forall (t : string) (q : nat),
             (exists u, u <> "" /\ l2 = u ++ t) -> star k cont t q = None).
  { intros t. induction t as [|c t IHt]; intros q Hs.
    - cbn. now apply Hfail.
    - cbn. destruct (class_matches k c).
      + rewrite IHt; [now apply Hfail|].
        destruct Hs as (u & Hu & ->). exists (u ++ String c ""). split.
        * destruct u; [congruence | discriminate].
        * now rewrite string_app_assoc.
      + now apply Hfail. }
  assert (Hl2 : star k cont l2 (pos + String.length l1) = Some x).
  { destruct l2 as [|c l2]; cbn; [exact Hc|].
    destruct (class_matches k c); [|exact Hc].
    rewrite Htail; [exact Hc|]. exists (String c ""). split; [discriminate | reflexivity]. }
  clear Hc Htail Hfail. revert pos Hl2.
  induction l1 as [|c l1 IH]; intros pos Hl2.
  - rewrite app_empty. cbn in Hl2. now rewrite Nat.add_0_r in Hl2.
  - cbn in Hall. apply andb_prop in Hall as [Hc1 Hrun]. rewrite app_cons. cbn.
    rewrite Hc1.
    rewrite (IH Hrun (S pos)); [reflexivity|].
    cbn in Hl2. now rewrite Nat.add_succ_r in Hl2.
Qed.

(** The continuation accepts nowhere: no match. *)
Lemma star_none {R} (k : class) (cont : string -> nat -> option R) (s : string) (pos : nat) :
  (forall (t : string) (q : nat), (exists u, s = u ++ t) -> cont t q = None) ->
  star k cont s pos = None.
Proof.
  revert pos. induction s as [|c s IH]; intros pos Hfail.
  - cbn. apply Hfail. now exists "".
  - cbn. destruct (class_matches k c).
    + rewrite IH.
      * apply Hfail. now exists "".
      * intros t q (u & ->). apply Hfail. now exists (String c u).
    + apply Hfail. now exists "".
Qed.


Lemma occurs_app (c : ascii) (u t : string) :
  occurs c (u ++ t) = occurs c u || occurs c t.
Proof.
  induction u as [|d u IH]; [reflexivity|].
  rewrite app_cons. cbn [occurs]. rewrite IH. now rewrite orb_assoc.
Qed.

Lemma allIn_NotChar (c : ascii) (s : string) :
  occurs c s = false -> allIn (NotChar c) s = true.
Proof.
  induction s as [|d s IH]; [reflexivity|]. cbn [occurs allIn class_matches].
  intros Ho. apply orb_false_elim in Ho as [Hd Hs].
  rewrite Ascii.eqb_sym, Hd. cbn [negb andb]. now apply IH.
Qed.

Lemma allIn_Any (s : string) :
  occurs "010"%char s = false -> allIn AnyCharNotNL s = true.
Proof.
  induction s as [|d s IH]; [reflexivity|]. cbn [occurs allIn class_matches].
  intros Ho. apply orb_false_elim in Ho as [Hd Hs].
  rewrite Ascii.eqb_sym, Hd. cbn [negb andb]. now apply IH.
Qed.

Lemma findFrom_register_skip (p x : string) (pos : nat) :
  occurs "["%char p = false ->
  findFrom re_register (p ++ x) pos = findFrom re_register x (pos + String.length p).
Proof.
  revert pos. induction p as [|c p IH]; intros pos Ho.
  - rewrite app_empty. cbn [String.length]. now rewrite Nat.add_0_r.
  - cbn [occurs] in Ho. apply orb_false_elim in Ho as [Hc Hp].
    rewrite app_cons. cbn [findFrom matchHere re_register]. rewrite Hc.
    rewrite (IH (S pos) Hp). cbn [String.length].
    now rewrite Nat.add_succ_r.
Qed.

Lemma matchHere_register (r s : string) (n : nat) :
  occurs "]"%char r = false ->
  matchHere re_register (String "[" (r ++ String "]" s)) n [] [] =
  Some (S (S (n + String.length r)), [(1, (S n, S n + String.length r))]).
Proof.
  intros Hr. cbn [matchHere re_register]. rewrite Ascii.eqb_refl.
  rewrite (star_longest (NotChar "]") _ r (String "]" s) (S n)
             (S (S (n + String.length r)), [(1, (S n, S n + String.length r))])).
  - reflexivity.
  - now apply allIn_NotChar.
  - reflexivity.
  - cbn. reflexivity.
Qed.

Lemma first_not (c : ascii) (t : string) :
  occurs c t = false ->
  match t with EmptyString => True | String d _ => Ascii.eqb c d = false end.
Proof.
  destruct t as [|d t]; [trivial|]. cbn [occurs].
  intros Ho. now apply orb_false_elim in Ho as [Hd _].
Qed.

Lemma replaceFrom_skip (re : Regexp) (repl : list tmpl) (src s : string)
    (pos skip : nat) :
  String.length s <= skip -> replaceFrom re repl src s pos skip = "".
Proof.
  revert pos skip. induction s as [|c s IH]; intros pos skip Hle; [reflexivity|].
  cbn [String.length] in Hle. destruct skip as [|k]; [lia|].
  cbn [replaceFrom]. apply IH. lia.
Qed.

Lemma substring_all (s : string) : substring 0 (String.length s) s = s.
Proof.
  rewrite <- (string_app_nil_r s) at 2. apply substring_take.
Qed.

(** The second pattern on [p[r]s]: one match, the whole string, with [p]
    as group 1 and [s] as group 2. *)
Lemma matchHere_field (p r s : string) :
  p <> "" -> r <> "" ->
  occurs "["%char p = false -> occurs "010"%char p = false ->
  occurs "["%char r = false -> occurs "]"%char r = false ->
  occurs "["%char s = false -> occurs "010"%char s = false ->
  let whole := p ++ String "[" (r ++ String "]" s) in
  matchHere re_field whole 0 [] [] =
  Some (String.length whole,
        [(2, (String.length p + S (String.length r + 1), String.length whole));
         (1, (0, String.length p))]).
Proof.
  intros Hp Hr Hpb Hpn Hrb Hrc Hsb Hsn whole. subst whole.
  destruct p as [|c0 p]; [congruence|]. destruct r as [|r0 r]; [congruence|].
  cbn [occurs] in Hpn, Hrc.
  apply orb_false_elim in Hpn as [Hc0 Hpn'].
  apply orb_false_elim in Hrc as [Hr0 Hrc'].
  rewrite !app_cons. cbn [matchHere re_field class_matches].
  rewrite (Ascii.eqb_sym c0), Hc0. cbn [negb].
  set (whole := String c0 (p ++ String "[" (String r0 (r ++ String "]" s)))).
  rewrite (star_backtrack AnyCharNotNL _ p (String "[" (String r0 (r ++ String "]" s))) 1
             (String.length whole,
              [(2, (String.length (String c0 p) + S (String.length (String r0 r) + 1),
                    String.length whole));
               (1, (0, String.length (String c0 p)))])).
  - reflexivity.
  - now apply allIn_Any.
  - intros t q (u & Hu & Heq).
    destruct u as [|d u]; [congruence|]. rewrite app_cons in Heq.
    injection Heq as _ Heq.
    assert (Ht : occurs "["%char t = false).
    { assert (Hall : occurs "["%char (String r0 (r ++ String "]" s)) = false).
      { change (String r0 (r ++ String "]" s)) with (String r0 r ++ String "]" s).
        rewrite occurs_app, Hrb. cbn [occurs orb]. rewrite Hsb. reflexivity. }
      rewrite Heq, occurs_app in Hall. now apply orb_false_elim in Hall as [_ Hall]. }
    apply first_not in Ht. cbn [matchHere cap_lookup List.map List.find fst snd Nat.eqb].
    destruct t as [|d' t]; [reflexivity|]. now rewrite Ht.
  - cbn [matchHere cap_lookup List.map List.find fst snd Nat.eqb class_matches].
    rewrite Ascii.eqb_refl. rewrite (Ascii.eqb_sym r0), Hr0. cbn [negb].
    rewrite (star_longest (NotChar "]") _ r (String "]" s) _
               (String.length whole,
                [(2, (String.length (String c0 p) + S (String.length (String r0 r) + 1),
                      String.length whole));
                 (1, (0, String.length (String c0 p)))])).
    + reflexivity.
    + now apply allIn_NotChar.
    + reflexivity.
    + cbn [matchHere]. rewrite Ascii.eqb_refl.
      rewrite <- (string_app_nil_r s) at 1.
      rewrite (star_longest AnyCharNotNL _ s "" _
               (String.length whole,
                [(2, (String.length (String c0 p) + S (String.length (String r0 r) + 1),
                      String.length whole));
                 (1, (0, String.length (String c0 p)))])).
      * reflexivity.
      * now apply allIn_Any.
      * reflexivity.
      * cbn [matchHere cap_lookup List.map List.find fst snd Nat.eqb].
        subst whole. cbn [String.length]. rewrite !length_app. cbn [String.length].
        rewrite !length_app. cbn [String.length].
        repeat (f_equal; try lia).
Qed.

(** X2: an identifier without an opening bracket is returned as the
    field, with no iterator field and no register. *)
Theorem extractField_no_bracket (E : Type) (field : string) :
  occurs "["%char field = false ->
  extractField (E := E) field = inr (field, "", "").
Proof.
  intros Ho. unfold extractField, FindStringSubmatch.
  rewrite <- (string_app_nil_r field) at 1.
  rewrite (findFrom_register_skip field "" 0 Ho). reflexivity.
Qed.

(** X3: an identifier [p[r]s] with one bracket group is split as the
    field [ps], the iterator field [p] and the register [r]. [p] and [r]
    are not empty; there is no opening bracket but the one shown, no
    closing bracket in [r], and no newline in [p] or [s]. *)
Theorem extractField_single_register (E : Type) (p r s : string) :
  p <> "" -> r <> "" ->
  occurs "["%char p = false -> occurs "010"%char p = false ->
  occurs "["%char r = false -> occurs "]"%char r = false ->
  occurs "["%char s = false -> occurs "010"%char s = false ->
  extractField (E := E) (p ++ "[" ++ r ++ "]" ++ s) = inr (p ++ s, p, r).
Proof.
  intros Hp Hr Hpb Hpn Hrb Hrc Hsb Hsn.
  change (p ++ "[" ++ r ++ "]" ++ s) with (p ++ String "[" (r ++ String "]" s)).
  set (whole := p ++ String "[" (r ++ String "]" s)).
  assert (Hids : FindStringSubmatch re_register whole =
                 [slice whole (String.length p)
                    (S (S (String.length p + String.length r))); r]).
  { unfold FindStringSubmatch, whole.
    rewrite (findFrom_register_skip p _ 0 Hpb). cbn [findFrom Nat.add].
    rewrite (matchHere_register r s _ Hrc).
    cbn [NumSubexp re_register List.filter length seq List.map group cap_lookup
         List.find fst snd Nat.eqb].
    do 2 f_equal. unfold slice.
    replace (S (String.length p) + String.length r - S (String.length p))
      with (String.length r) by lia.
    replace (S (String.length p)) with (String.length p + 1) by lia.
    rewrite substring_skip. cbn [substring]. apply substring_take. }
  assert (Hm := matchHere_field p r s Hp Hr Hpb Hpn Hrb Hrc Hsb Hsn).
  cbv zeta in Hm. fold whole in Hm.
  assert (Hrepl : forall repl,
             ReplaceAllString re_field whole repl =
             expand repl whole
               [(2, (String.length p + S (String.length r + 1), String.length whole));
                (1, (0, String.length p))]).
  { intros repl. unfold ReplaceAllString.
    destruct whole as [|w0 w] eqn:Hw.
    { destruct p; [congruence | discriminate]. }
    cbn [replaceFrom]. rewrite Hm. cbn [String.length Nat.ltb Nat.leb].
    rewrite replaceFrom_skip by lia. apply string_app_nil_r. }
  assert (Hg1 : group whole
                  [(2, (String.length p + S (String.length r + 1), String.length whole));
                   (1, (0, String.length p))] 1 = p).
  { cbn [group cap_lookup List.find fst snd Nat.eqb]. unfold slice.
    rewrite Nat.sub_0_r. apply substring_take. }
  assert (Hg2 : group whole
                  [(2, (String.length p + S (String.length r + 1), String.length whole));
                   (1, (0, String.length p))] 2 = s).
  { cbn [group cap_lookup List.find fst snd Nat.eqb]. unfold slice, whole.
    rewrite substring_skip. cbn [substring].
    replace (String.length r + 1) with (String.length r + 1 + 0) by lia.
    rewrite <- Nat.add_assoc. rewrite substring_skip. cbn [Nat.add substring].
    rewrite !length_app. cbn [String.length]. rewrite !length_app. cbn [String.length].
    replace (String.length p + S (String.length r + S (String.length s))
             - (String.length p + S (String.length r + 1)))
      with (String.length s) by lia.
    apply substring_all. }
  unfold extractField. rewrite Hids. cbn [length nth].
  rewrite !Hrepl. cbn [expand]. rewrite Hg1, Hg2.
  now rewrite !string_app_nil_r.
Qed.

Lemma substring_zero (n : nat) (s : string) : substring n 0 s = "".
Proof.
  revert n. induction s as [|c s IH]; intros [|n]; try reflexivity. apply IH.
Qed.

(** No match at any position: the text is returned as it is. *)
Lemma replaceFrom_no_match (re : Regexp) (repl : list tmpl) (src s : string)
    (pos : nat) :
  (forall (t : string) (q : nat), (exists u, s = u ++ t) ->
                                  matchHere re t q [] [] = None) ->
  replaceFrom re repl src s pos 0 = s.
Proof.
  revert pos. induction s as [|c s IH]; intros pos Hno; [reflexivity|].
  cbn [replaceFrom]. rewrite (Hno (String c s) pos) by now exists "".
  f_equal. apply IH. intros t q (u & ->). apply Hno. now exists (String c u).
Qed.

Lemma bracketsEmpty_plain (x u t : string) :
  occurs "["%char x = false -> x = u ++ t -> bracketsEmpty t.
Proof.
  intros Ho ->. rewrite occurs_app in Ho. apply orb_false_elim in Ho as [_ Ho].
  apply first_not in Ho. destruct t as [|d t]; [exact I|].
  unfold bracketsEmpty. congruence.
Qed.

Lemma bracketsEmpty_suffix (p s u t : string) :
  occurs "["%char p = false -> occurs "["%char s = false ->
  p ++ String "[" (String "]" s) = u ++ t -> bracketsEmpty t.
Proof.
  intros Hp Hs. revert u. induction p as [|c p IH]; intros u Heq.
  - rewrite app_empty in Heq. destruct u as [|u0 u].
    + rewrite app_empty in Heq. subst t. cbn. intros _. now exists s.
    + rewrite app_cons in Heq. injection Heq as _ Heq.
      destruct u as [|u1 u].
      * rewrite app_empty in Heq. subst t. cbn. discriminate.
      * rewrite app_cons in Heq. injection Heq as _ Heq.
        now apply (bracketsEmpty_plain s u t).
  - cbn [occurs] in Hp. apply orb_false_elim in Hp as [Hc Hp].
    rewrite app_cons in Heq. destruct u as [|u0 u].
    + rewrite app_empty in Heq. subst t. unfold bracketsEmpty. congruence.
    + rewrite app_cons in Heq. injection Heq as _ Heq. now apply (IH Hp u).
Qed.

Lemma matchHere_field_none (t : string) (q : nat) :
  (forall u t', t = u ++ t' -> bracketsEmpty t') ->
  matchHere re_field t q [] [] = None.
Proof.
  intros Hgood. destruct t as [|d t]; [reflexivity|].
  cbn [matchHere re_field]. destruct (class_matches AnyCharNotNL d); [|reflexivity].
  apply star_none. intros t' q' (u & ->).
  specialize (Hgood (String d u) t' eq_refl).
  cbn [matchHere cap_lookup List.map List.find fst snd Nat.eqb].
  destruct t' as [|d' t']; [reflexivity|].
  destruct (Ascii.eqb "[" d') eqn:Hd; [|reflexivity].
  destruct (Hgood Hd) as (rest' & ->). reflexivity.
Qed.

(** X4: empty brackets are not taken out. On [p[]s], with no other
    opening bracket, the register is empty and both the field and the
    iterator field are the whole identifier, brackets included. *)
Theorem extractField_empty_register (E : Type) (p s : string) :
  occurs "["%char p = false -> occurs "["%char s = false ->
  extractField (E := E) (p ++ "[]" ++ s) =
  inr (p ++ "[]" ++ s, p ++ "[]" ++ s, "").
Proof.
  intros Hp Hs.
  change (p ++ "[]" ++ s) with (p ++ String "[" ("" ++ String "]" s)).
  set (whole := p ++ String "[" ("" ++ String "]" s)).
  assert (Hids : FindStringSubmatch re_register whole =
                 [slice whole (String.length p) (S (S (String.length p + 0))); ""]).
  { unfold FindStringSubmatch, whole.
    rewrite (findFrom_register_skip p _ 0 Hp). cbn [findFrom Nat.add].
    rewrite (matchHere_register "" s _ eq_refl).
    cbn [NumSubexp re_register List.filter length seq List.map group cap_lookup
         List.find fst snd Nat.eqb String.length].
    do 2 f_equal. unfold slice.
    replace (S (String.length p) + 0 - S (String.length p)) with 0 by lia.
    apply substring_zero. }
  assert (Hrepl : forall repl, ReplaceAllString re_field whole repl = whole).
  { intros repl. unfold ReplaceAllString. apply replaceFrom_no_match.
    intros t q (u & Heq). apply matchHere_field_none.
    intros u' t' ->. apply (bracketsEmpty_suffix p s (u ++ u') t' Hp Hs).
    change (whole = (u ++ u') ++ t'). now rewrite string_app_assoc. }
  unfold extractField. rewrite Hids. cbn [length nth]. now rewrite !Hrepl.
Qed.

End MatcherProperties.

(** ** [Split] and the prefix loop *)

Section SplitProperties.

Lemma Split_not_nil (s : string) : Split s <> [].
Proof.
  induction s as [|c s IH]; [discriminate|]. cbn [Split].
  destruct (Ascii.eqb c "."); [discriminate|].
  destruct (Split s); [congruence | discriminate].
Qed.

Lemma concat_cons (sep x : string) (xs : list string) :
  xs <> [] -> String.concat sep (x :: xs) = x ++ sep ++ String.concat sep xs.
Proof. destruct xs; [congruence | reflexivity]. Qed.

(** X5: joining the pieces of [Split s] with dots gives [s] back, and no
    piece holds a dot. *)
Theorem Split_join (s : string) :
  String.concat "." (Split s) = s /\
  Forall (fun piece => occurs "."%char piece = false) (Split s).
Proof.
  induction s as [|c s [IHj IHd]]; [split; [reflexivity | repeat constructor]|].
  cbn [Split]. destruct (Ascii.eqb_spec c "."%char) as [->|Hc].
  - split.
    + rewrite concat_cons by apply Split_not_nil. now rewrite IHj.
    + constructor; [reflexivity | exact IHd].
  - pose proof (Split_not_nil s) as Hn.
    destruct (Split s) as [|piece rest]; [congruence|]. split.
    + destruct rest as [|r rest].
      * cbn [String.concat] in *. now rewrite IHj.
      * rewrite concat_cons by discriminate. rewrite concat_cons in IHj by discriminate.
        rewrite app_cons. now rewrite IHj.
    + inversion IHd as [|? ? Hp Hr]; subst. constructor; [|exact Hr].
      cbn [occurs]. rewrite Hp, orb_false_r.
      destruct (Ascii.eqb_spec "."%char c); [congruence | reflexivity].
Qed.

Lemma Split_app_dot (x rest : string) :
  occurs "."%char x = false ->
  Split (x ++ String "." rest) = x :: Split rest.
Proof.
  induction x as [|c x IH]; intros Ho.
  - rewrite app_empty. cbn [Split]. now rewrite Ascii.eqb_refl.
  - cbn [occurs] in Ho. apply orb_false_elim in Ho as [Hc Hx].
    rewrite app_cons. cbn [Split]. rewrite Ascii.eqb_sym, Hc. now rewrite (IH Hx).
Qed.

Lemma Split_plain (x : string) :
  occurs "."%char x = false -> Split x = [x].
Proof.
  induction x as [|c x IH]; intros Ho; [reflexivity|].
  cbn [occurs] in Ho. apply orb_false_elim in Ho as [Hc Hx].
  cbn [Split]. rewrite Ascii.eqb_sym, Hc. now rewrite (IH Hx).
Qed.

(** X6: [Split] undoes the joining of dot-free pieces. *)
Theorem Split_of_join (pieces : list string) :
  pieces <> [] ->
  Forall (fun piece => occurs "."%char piece = false) pieces ->
  Split (String.concat "." pieces) = pieces.
Proof.
  induction pieces as [|x xs IH]; [congruence|]. intros _ Hall.
  inversion Hall as [|? ? Hx Hxs]; subst.
  destruct xs as [|y ys].
  - cbn [String.concat]. now apply Split_plain.
  - rewrite concat_cons by discriminate.
    change ("." ++ String.concat "." (y :: ys))
      with (String "." (String.concat "." (y :: ys))).
    rewrite (Split_app_dot _ _ Hx). f_equal. apply IH; [discriminate | exact Hxs].
Qed.

End SplitProperties.

Section ScanProperties.
Context `{Externals} {model : Model}.

Lemma growCandidate_not_empty (candidate node : string) :
  candidate <> "" -> growCandidate candidate node <> "".
Proof.
  intros Hc. unfold growCandidate. destruct (decide (candidate = "")); [contradiction|].
  destruct candidate; [congruence | discriminate].
Qed.




End ScanProperties.

(** ** [identToEvaluator]: register names *)

Section RegisterNames.
Context `{Externals} {model : Model} {ops : Operators}.

(** X8: an identifier with an iterator and a register name other than the
    placeholder is refused with [RegisterNameNotAllowed]; nothing is
    generated and the state is as before. *)
Theorem named_register_not_allowed (pos : Position) (name : string) (opts : Opts)
    (st : state) (field itField regID : string) (it : Iterator) :
  resolves opts st name field itField regID (Some it) ->
  regID <> "" -> regID <> "_" ->
  identToEvaluator (mkIdent pos name) opts st =
  (Err pos (RegisterNameNotAllowed pos regID "only `_` is supported"), st).
Proof.
  intros Hres H1 H2.
  rewrite (identToEvaluator_resolved pos _ _ _ _ _ _ _ Hres).
  unfold bindRegister.
  destruct (decide (regID ≠ "" ∧ regID ≠ "_")) as [_|Hn]; [reflexivity|].
  exfalso. apply Hn. now split.
Qed.

(** X9: without an iterator no register is bound and no id is generated: the
    register text of the identifier goes to [GetEvaluator] as it is, and
    only the field set of the state can change. *)
Theorem no_iterator_no_register (pos : Position) (name : string) (opts : Opts)
    (st : state) (field itField regID : string) :
  resolves opts st name field itField regID None ->
  registersInfo (snd (identToEvaluator (mkIdent pos name) opts st)) = registersInfo st /\
  rand (snd (identToEvaluator (mkIdent pos name) opts st)) = rand st /\
  fst (identToEvaluator (mkIdent pos name) opts st) =
    match GetEvaluator field regID with
    | inl err => Err pos (External err)
    | inr accessor => Ok accessor pos
    end.
Proof.
  intros Hres.
  rewrite (identToEvaluator_resolved pos _ _ _ _ _ _ _ Hres).
  cbn [bindRegister]. destruct (GetEvaluator field regID); repeat split.
Qed.

(** X22: with the placeholder register and an iterator, when the generated
    id is not yet bound: after [identToEvaluator] the id is bound to an
    entry made of the iterator field, the iterator and the field alone, and
    every other id is bound as before. *)
Theorem fresh_register_binding (pos : Position) (name : string) (opts : Opts)
    (st : state) (field itField regID : string) (it : Iterator) :
  resolves opts st name field itField regID (Some it) ->
  regID = "" \/ regID = "_" ->
  registersInfo st !! RandString (rand st) 8 = None ->
  let g := RandString (rand st) 8 in
  let st' := snd (identToEvaluator (mkIdent pos name) opts st) in
  registersInfo st' !! g = Some (mkRegisterInfo itField it {[ field := true ]}) /\
  (forall r : string, r <> g -> registersInfo st' !! r = registersInfo st !! r).
Proof.
  intros Hres Hreg Hg g st'.
  destruct (identToEvaluator_anonymous pos name opts st field itField regID it
              Hres Hreg) as (_ & _ & Hregs).
  fold st' in Hregs. rewrite Hg in Hregs. unfold boundEntry in Hregs.
  rewrite Hg in Hregs. rewrite Hregs. split.
  - apply lookup_insert_eq.
  - intros r Hr. now apply lookup_insert_ne.
Qed.

End RegisterNames.

(** ** [nodeToEvaluator]: what compiles and what does not *)

Section DispatchProperties.
Context `{Externals} {model : Model} {ops : Operators}.

Lemma retBool_Ok (errPos okPos p : Position)
    (r : (ExtError + BoolEvaluator) * state) (v : value) (st' : state) :
  retBool errPos okPos r = (Ok v p, st') ->
  (exists b : BoolEvaluator, v = BoolEv b) /\ p = okPos.
Proof.
  destruct r as [[e|b] s]; cbn; [discriminate|]. intros [= <- <- <-]. eauto.
Qed.

Lemma retNot_Ok (errPos okPos p : Position) (opts : Opts)
    (r : (ExtError + BoolEvaluator) * state) (v : value) (st' : state) :
  retNot errPos okPos opts r = (Ok v p, st') ->
  (exists b : BoolEvaluator, v = BoolEv b) /\ p = okPos.
Proof.
  destruct r as [[e|b] s]; cbn; [discriminate|].
  destruct (Not b opts s). intros [= <- <- <-]. eauto.
Qed.

Lemma retInt_Ok (errPos okPos p : Position)
    (r : (ExtError + IntEvaluator) * state) (v : value) (st' : state) :
  retInt errPos okPos r = (Ok v p, st') ->
  (exists i : IntEvaluator, v = IntEv i) /\ p = okPos.
Proof.
  destruct r as [[e|b] s]; cbn; [discriminate|]. intros [= <- <- <-]. eauto.
Qed.

(** Case analysis of a chain of operator tests: each test on [op] either
    names the operator or is known to fail. *)
Ltac split_op op :=
  repeat match goal with
         | |- context [String.eqb op ?s] =>
             destruct (String.eqb_spec op s) as [->|?]
         end.

Ltac close_ok :=
  intros Hok;
  first
    [ discriminate Hok
    | apply retBool_Ok in Hok
    | apply retNot_Ok in Hok
    | apply retInt_Ok in Hok ].

(** What the dispatch of a scalar comparison returns when it succeeds. *)
Lemma scalarComparisonOp_Ok (objPos pos p : Position) (op : string)
    (unary next v : value) (opts : Opts) (st st' : state) :
  scalarComparisonOp objPos pos op unary next opts st = (Ok v p, st') ->
  (exists b : BoolEvaluator, v = BoolEv b) /\ p = objPos /\
  In op ["=="; "!="; "<"; "<="; ">"; ">="; "=~"; "!~"] /\
  scalarPair unary next = true.
Proof.
  unfold scalarComparisonOp, staticPattern, unknownEntity.
  destruct unary, next; try discriminate;
    try destruct (isDuration _);
    split_op op;
    repeat match goal with
           | |- context [match ?x with _ => _ end] => destruct x
           end;
    close_ok;
    (destruct Hok as [Hb ->]; repeat split; [exact Hb | cbn; tauto]).
Qed.

(** X12: A scalar comparison that compiles gives a Bool evaluator at the
    position of the comparison; its operator is one of the eight the
    switch knows and its operands are one of the seven pairs it has a
    branch for. *)
Theorem scalar_comparison_compiles_to_bool (objPos scPos p : Position)
    (bit next : node) (op : string) (opts : Opts) (st st' : state) (v : value) :
  nodeToEvaluator
    (Comparison objPos bit (Some (ScalarComparison scPos op next)) None) opts st
    = (Ok v p, st') ->
  (exists b : BoolEvaluator, v = BoolEv b) /\ p = objPos /\
  In op ["=="; "!="; "<"; "<="; ">"; ">="; "=~"; "!~"].
Proof.
  rewrite nodeToEvaluator_scalar.
  destruct (nodeToEvaluator bit opts st) as [[unary p1| |] st1];
    cbn [andThen]; try discriminate.
  destruct (nodeToEvaluator next opts st1) as [[nextv p2| |] st2];
    cbn [andThen]; try discriminate.
  intros Hok. apply scalarComparisonOp_Ok in Hok. tauto.
Qed.

(** X13: The type check of a scalar comparison comes before its operator:
    when the right operand is not of the kind the left one asks for, the
    result is a type error naming that kind, at the position the right
    operand returned, whatever the operator. *)
Theorem scalar_type_mismatch (objPos scPos p1 p2 : Position)
    (bit next : node) (op : string) (opts : Opts) (st st1 st2 : state)
    (unary nextv : value) (kind : Kind) :
  nodeToEvaluator bit opts st = (Ok unary p1, st1) ->
  nodeToEvaluator next opts st1 = (Ok nextv p2, st2) ->
  rightKind unary = Some kind ->
  scalarPair unary nextv = false ->
  nodeToEvaluator
    (Comparison objPos bit (Some (ScalarComparison scPos op next)) None) opts st
    = (Err p2 (TypeError p2 kind), st2).
Proof.
  intros Hl Hr Hk Hp.
  rewrite (nodeToEvaluator_scalar_values _ _ _ _ _ _ _ _ _ _ _ _ _ Hl Hr).
  unfold scalarComparisonOp.
  destruct unary, nextv; try discriminate; injection Hk as <-; reflexivity.
Qed.

(** X17: An array comparison only has the five pairs of operands: with
    any other pair the result is a type error naming the array kind, at
    the position the array returned, whatever the operator. *)
Theorem array_type_mismatch (objPos p1 p2 : Position) (bit : node)
    (scalar : option scalarComparison) (array : ArrayComparison)
    (opts : Opts) (st st1 st2 : state) (unary nextv : value) :
  nodeToEvaluator bit opts st = (Ok unary p1, st1) ->
  arrayToEvaluator (ArrayComparison_Array array) opts st1 = (Ok nextv p2, st2) ->
  arrayPair unary nextv = false ->
  nodeToEvaluator (Comparison objPos bit scalar (Some array)) opts st
    = (Err p2 (TypeError p2 KArray), st2).
Proof.
  intros Hl Hr Hp. rewrite nodeToEvaluator_array, Hl. cbn [andThen].
  rewrite Hr. cbn [andThen]. unfold arrayComparison.
  destruct unary, nextv; try discriminate; reflexivity.
Qed.

(** X16: A comparison with a literal list of numbers never compiles:
    [arrayToEvaluator] returns the list as a struct, which no branch of
    the array comparison takes. *)
Theorem number_list_never_compiles (objPos acPos : Position) (bit : node)
    (scalar : option scalarComparison) (op : string) (array : Array)
    (opts : Opts) (st : state) :
  Array_Numbers array <> [] ->
  forall (v : value) (p : Position) (st' : state),
    nodeToEvaluator
      (Comparison objPos bit scalar (Some (mkArrayComparison acPos op array)))
      opts st <> (Ok v p, st').
Proof.
  intros Hn v p st'. rewrite nodeToEvaluator_array.
  cbn [ArrayComparison_Array ArrayComparison_Op].
  destruct (nodeToEvaluator bit opts st) as [[unary p1| |] st1];
    cbn [andThen]; try discriminate.
  unfold arrayToEvaluator.
  destruct (Array_Numbers array) as [|n ns]; [congruence|].
  cbn [length Nat.eqb negb andThen]. unfold arrayComparison.
  destruct unary; discriminate.
Qed.

(** X14: Where no [StringEquals] override is involved, the negated
    operators are [Not] of the positive ones: a comparison that compiles
    with [!=] (with [!~]) compiles with [==] (with [=~]) and its evaluator
    is [Not] of that one. *)
Theorem negated_operators_are_Not (objPos scPos p1 p2 p : Position)
    (bit next : node) (opts : Opts) (st st1 st2 st' : state)
    (unary nextv v : value) (neg pos : string) :
  nodeToEvaluator bit opts st = (Ok unary p1, st1) ->
  nodeToEvaluator next opts st1 = (Ok nextv p2, st2) ->
  noOverride unary nextv ->
  (neg, pos) = ("!=", "==") \/ (neg, pos) = ("!~", "=~") ->
  nodeToEvaluator
    (Comparison objPos bit (Some (ScalarComparison scPos neg next)) None) opts st
    = (Ok v p, st') ->
  exists (b : BoolEvaluator) (st'' : state),
    nodeToEvaluator
      (Comparison objPos bit (Some (ScalarComparison scPos pos next)) None) opts st
      = (Ok (BoolEv b) p, st'') /\
    v = BoolEv (fst (Not b opts st'')) /\
    st' = snd (Not b opts st'').
Proof.
  intros Hl Hr Hno Hops.
  rewrite !(nodeToEvaluator_scalar_values _ _ _ _ _ _ _ _ _ _ _ _ _ Hl Hr).
  unfold scalarComparisonOp, staticPattern, unknownEntity.
  destruct Hops as [[= -> ->] | [= -> ->]];
    destruct unary as [u|u|u|u|u|u|u|u], nextv as [n|n|n|n|n|n|n|n];
    try discriminate;
    cbn [String.eqb Ascii.eqb Bool.eqb];
    try (destruct (Hno u n eq_refl eq_refl) as [-> ->]);
    try destruct (isDuration n);
    try discriminate;
    try destruct (String_EvalFnc n); try discriminate;
    try destruct (compilePattern n); try discriminate;
    apply retNot_of_retBool.
Qed.

Lemma scalarComparisonOp_mirror (objPos pos pos' : Position) (op : string)
    (array : IntArrayEvaluator) (x : IntEvaluator) (opts : Opts) (st : state) :
  In op ["=="; "!="; "<"; "<="; ">"; ">="] ->
  scalarComparisonOp objPos pos op (IntArrayEv array) (IntEv x) opts st =
  scalarComparisonOp objPos pos' (mirror op) (IntEv x) (IntArrayEv array) opts st.
Proof.
  intros Hop. cbn [In] in Hop.
  repeat destruct Hop as [<- | Hop]; try reflexivity. contradiction.
Qed.

(** X15: An array of integers on the left is compared as the integer
    with the array, with the operator mirrored: for the six operators and
    operands whose compilation leaves the state alone, [a op x] compiles
    to what [x (mirror op) a] compiles to. *)
Theorem int_array_left_is_mirrored (objPos scPos pa px : Position)
    (a x : node) (op : string) (opts : Opts) (st : state)
    (array : IntArrayEvaluator) (int : IntEvaluator) :
  nodeToEvaluator a opts st = (Ok (IntArrayEv array) pa, st) ->
  nodeToEvaluator x opts st = (Ok (IntEv int) px, st) ->
  In op ["=="; "!="; "<"; "<="; ">"; ">="] ->
  nodeToEvaluator
    (Comparison objPos a (Some (ScalarComparison scPos op x)) None) opts st =
  nodeToEvaluator
    (Comparison objPos x (Some (ScalarComparison scPos (mirror op) a)) None) opts st.
Proof.
  intros Ha Hx Hop.
  rewrite (nodeToEvaluator_scalar_values _ _ _ _ _ _ _ _ _ _ _ _ _ Ha Hx).
  rewrite (nodeToEvaluator_scalar_values _ _ _ _ _ _ _ _ _ _ _ _ _ Hx Ha).
  now apply scalarComparisonOp_mirror.
Qed.

(** X18: An array comparison that compiles gives a Bool evaluator at the
    position of the comparison. *)
Theorem array_comparison_compiles_to_bool (objPos p : Position) (bit : node)
    (scalar : option scalarComparison) (array : ArrayComparison)
    (opts : Opts) (st st' : state) (v : value) :
  nodeToEvaluator (Comparison objPos bit scalar (Some array)) opts st = (Ok v p, st') ->
  (exists b : BoolEvaluator, v = BoolEv b) /\ p = objPos.
Proof.
  rewrite nodeToEvaluator_array.
  destruct (nodeToEvaluator bit opts st) as [[unary p1| |] st1];
    cbn [andThen]; try discriminate.
  destruct (arrayToEvaluator (ArrayComparison_Array array) opts st1)
    as [[nextv p2| |] st2]; cbn [andThen]; try discriminate.
  unfold arrayComparison.
  destruct unary, nextv; try discriminate;
    destruct (String.eqb (ArrayComparison_Op array) "notin"); close_ok; exact Hok.
Qed.

(** X19: A logical expression with an operator compiles only when both
    operands compile to Bool evaluators and the operator is one of [||],
    [or], [&&], [and]; the result is a Bool evaluator at the position of
    the expression. *)
Theorem logical_expression_compiles_to_bool (objPos p : Position)
    (comparison : node) (op : string) (next : option node)
    (opts : Opts) (st st' : state) (v : value) :
  nodeToEvaluator (Expression objPos comparison (Some op) next) opts st
    = (Ok v p, st') ->
  (exists b : BoolEvaluator, v = BoolEv b) /\ p = objPos /\
  In op ["||"; "or"; "&&"; "and"] /\
  exists (l r : BoolEvaluator) (nx : node) (p1 p2 : Position) (st1 st2 : state),
    nodeToEvaluator comparison opts st = (Ok (BoolEv l) p1, st1) /\
    next = Some nx /\
    nodeToEvaluator nx opts st1 = (Ok (BoolEv r) p2, st2).
Proof.
  cbn [nodeToEvaluator].
  destruct (nodeToEvaluator comparison opts st) as [[cmp p1| |] st1];
    cbn [andThen]; try discriminate.
  destruct cmp as [l| | | | | | |]; try discriminate.
  destruct next as [nx|]; cbn [andThen]; [|discriminate].
  destruct (nodeToEvaluator nx opts st1) as [[nextv p2| |] st2] eqn:Hnx;
    cbn [andThen]; try discriminate.
  destruct nextv as [r| | | | | | |]; try discriminate.
  split_op op; cbn [orb]; close_ok;
    (destruct Hok as [Hb ->]; repeat split; [exact Hb | cbn; tauto |];
     exists l, r, nx, p1, p2, st1, st2; auto).
Qed.

(** X20: A bit operation with an operator compiles only when both
    operands compile to Int evaluators and the operator is one of [&],
    [|], [^]; the result is an Int evaluator at the position of the
    operation. *)
Theorem bit_operation_compiles_to_int (objPos p : Position)
    (unary : node) (op : string) (next : option node)
    (opts : Opts) (st st' : state) (v : value) :
  nodeToEvaluator (BitOperation objPos unary (Some op) next) opts st
    = (Ok v p, st') ->
  (exists i : IntEvaluator, v = IntEv i) /\ p = objPos /\
  In op ["&"; "|"; "^"] /\
  exists (l r : IntEvaluator) (nx : node) (p1 p2 : Position) (st1 st2 : state),
    nodeToEvaluator unary opts st = (Ok (IntEv l) p1, st1) /\
    next = Some nx /\
    nodeToEvaluator nx opts st1 = (Ok (IntEv r) p2, st2).
Proof.
  cbn [nodeToEvaluator].
  destruct (nodeToEvaluator unary opts st) as [[u p1| |] st1];
    cbn [andThen]; try discriminate.
  destruct u as [|l| | | | | |]; try discriminate.
  destruct next as [nx|]; cbn [andThen]; [|discriminate].
  destruct (nodeToEvaluator nx opts st1) as [[nextv p2| |] st2] eqn:Hnx;
    cbn [andThen]; try discriminate.
  destruct nextv as [|r| | | | | |]; try discriminate.
  split_op op; close_ok;
    (destruct Hok as [Hb ->]; repeat split; [exact Hb | cbn; tauto |];
     exists l, r, nx, p1, p2, st1, st2; auto).
Qed.

(** X21: A unary operator compiles only on an operand of its kind: [!]
    and [not] on a Bool evaluator, giving a Bool evaluator; [-] and [^] on
    an Int evaluator, giving an Int evaluator. *)
Theorem unary_operator_kinds (objPos p : Position) (op : string)
    (unary primary : option node) (opts : Opts) (st st' : state) (v : value) :
  nodeToEvaluator (Unary objPos (Some op) unary primary) opts st = (Ok v p, st') ->
  exists (u : node) (operand : value) (p1 : Position) (st1 : state),
    unary = Some u /\
    nodeToEvaluator u opts st = (Ok operand p1, st1) /\
    ((In op ["!"; "not"] /\ (exists b, operand = BoolEv b) /\ (exists b, v = BoolEv b)
      /\ p = objPos) \/
     (In op ["-"; "^"] /\ (exists i, operand = IntEv i) /\ (exists i, v = IntEv i)
      /\ p = p1)).
Proof.
  cbn [nodeToEvaluator].
  destruct unary as [u|]; cbn [andThen]; [|discriminate].
  destruct (nodeToEvaluator u opts st) as [[operand p1| |] st1] eqn:Hu;
    cbn [andThen]; try discriminate.
  intros Hok. exists u, operand, p1, st1. split; [reflexivity|]. split; [exact Hu|].
  revert Hok. split_op op; cbn [orb];
    destruct operand; try discriminate;
    repeat match goal with
           | |- context [Not ?b ?o ?s] => destruct (Not b o s)
           | |- context [Minus ?b ?o ?s] => destruct (Minus b o s)
           | |- context [IntNot ?b ?o ?s] => destruct (IntNot b o s)
           end;
    intros [= <- <- <-];
    first [ left; repeat split; eauto; cbn; tauto
          | right; repeat split; eauto; cbn; tauto ].
Qed.

End DispatchProperties.

(** ** [nodeToEvaluator]: no nil dereference on a well-formed AST *)

Section NoPanic.
Context `{Externals} {model : Model} {ops : Operators}.











End NoPanic.

(** ** The properties on concrete rules *)

Section Examples.
Import Fixtures.
#[local] Existing Instance externals.
#[local] Existing Instance model.

Lemma fixture_Not_negates (tape : nat -> string) : NotNegates (operators tape).
Proof.
  intros b opts st ctx. unfold evalBool. cbn.
  destruct (Bool_EvalFnc b); reflexivity.
Qed.

Lemma fixture_keeps_registers (tape : nat -> string) :
  KeepRegisters (operators tape).
Proof.
  split; try intros f; intros x y opts st; apply keepsRegisters_refl.
Qed.

Lemma resolves_a_b (opts : Opts) (st : state) :
  Constants opts = ∅ -> LegacyAttributes opts = None -> macros st = None ->
  resolves opts st "a[_].b" "a.b" "a" "_" (Some "iterator of a").
Proof.
  intros Hc Hl Hm. unfold resolves, lookupMacro, remapLegacy.
  rewrite Hc, Hl, Hm. repeat split.
  exists "a.b", "a". repeat split.
Qed.


Lemma resolves_a_zzz :
  resolves opts0 state0 "a[_].zzz" "a.zzz" "a" "_" (Some "iterator of a").
Proof.
  repeat split. exists "a.zzz", "a". repeat split.
Qed.

(** [5 < 10s] is a duration comparison, by the flag of [10s]. *)
Lemma ordering_dispatch_witness :
  nodeToEvaluator (ops := distinct) (scalar (number 5) "<" (duration 10)) opts0 state0 =
  retBool p0 p0
    (DurationLesserThan (Operators := distinct)
       (numberEvaluator 5) (durationEvaluator 10) opts0 state0).
Proof.
  refine (proj1 (proj1 (ordering_dispatch_on_right_flag (ops := distinct)
            p0 p0 p0 p0 (number 5) (Comparison p0 (duration 10) None None)
            opts0 state0 state0 state0 (numberEvaluator 5) (durationEvaluator 10)
            _ _) _)); reflexivity.
Defined.

(** C1 as stated fails on [5s < 10]: the left operand carries the
    duration flag and the comparison is the plain [LesserThan], not
    [DurationLesserThan]. *)
Lemma left_flag_is_ignored :
  isDuration (durationEvaluator 5) = true /\
  nodeToEvaluator (ops := distinct) (scalar (duration 5) "<" (number 10)) opts0 state0 =
    retBool p0 p0
      (LesserThan (Operators := distinct)
         (durationEvaluator 5) (numberEvaluator 10) opts0 state0) /\
  nodeToEvaluator (ops := distinct) (scalar (duration 5) "<" (number 10)) opts0 state0 <>
    retBool p0 p0
      (DurationLesserThan (Operators := distinct)
         (durationEvaluator 5) (numberEvaluator 10) opts0 state0).
Proof.
  split; [reflexivity|]. split; [reflexivity|].
  vm_compute. intros [=].
Qed.

(** [5s == 10] and [5s != 10] are [IntEquals]. *)
Lemma equality_witness :
  nodeToEvaluator (ops := distinct) (scalar (duration 5) "==" (number 10)) opts0 state0 =
    retBool p0 p0
      (IntEquals (Operators := distinct)
         (durationEvaluator 5) (numberEvaluator 10) opts0 state0) /\
  nodeToEvaluator (ops := distinct) (scalar (duration 5) "!=" (number 10)) opts0 state0 =
    retNot (ops := distinct) p0 p0 opts0
      (IntEquals (Operators := distinct)
         (durationEvaluator 5) (numberEvaluator 10) opts0 state0).
Proof.
  refine (equality_is_IntEquals (ops := distinct)
            p0 p0 p0 p0 (duration 5) (Comparison p0 (number 10) None None)
            opts0 state0 state0 state0 (durationEvaluator 5) (numberEvaluator 10)
            _ _ _); reflexivity.
Defined.

(** C2 as stated fails on [5 == 10s] and [5 != 10s]: with the duration
    flag on the right operand neither compiles. *)
Lemma equality_with_duration_fails :
  isDuration (durationEvaluator 10) = true /\
  nodeToEvaluator (ops := distinct) (scalar (number 5) "==" (duration 10)) opts0 state0 =
    (Err p0 (TypeError p0 KInt), state0) /\
  nodeToEvaluator (ops := distinct) (scalar (number 5) "!=" (duration 10)) opts0 state0 =
    (Err p0 (TypeError p0 KInt), state0).
Proof. repeat split. Qed.

(** C3 on [a[_].b] with the legacy table renaming [a] to [c]: the
    iterator field stays [a], the iterator is looked up under [a], and
    the register records [a]. *)
Theorem legacy_iterator_field_not_remapped :
  extractField (E := ExtError) "a[_].b" = inr ("a.b", "a", "_") /\
  LegacyAttributes legacyOpts = Some {[ "a" := "c" ]} /\
  remapLegacy legacyOpts "a.b" "a" = ("a.b", "a") /\
  registersInfo
    (snd (identToEvaluator (ops := distinct) (mkIdent p0 "a[_].b") legacyOpts state0)) =
    {[ "AAAAAAAA" := mkRegisterInfo "a" "iterator of a" {[ "a.b" := true ]} ]}.
Proof. repeat split. Qed.





(** [name =~ name]: a pattern taken from a field is refused. *)
Example pattern_from_field_refused :
  fst (nodeToEvaluator (ops := distinct) (scalar (name "name") "=~" (name "name"))
         opts0 state0) =
  Err p0 (ErrNonStaticPattern "name").
Proof. reflexivity. Qed.

(** [a[_].b] when the generated id is already bound to the iterator field
    [c]: a conflict, and the registers are left as they were. *)
Lemma register_conflict_witness :
  fst (identToEvaluator (ops := constant) (mkIdent p0 "a[_].b") opts0 boundState) =
    Err p0 (RegisterMultipleFields p0 "AAAAAAAA" "used by multiple fields") /\
  registersInfo
    (snd (identToEvaluator (ops := constant) (mkIdent p0 "a[_].b") opts0 boundState)) =
    registersInfo boundState.
Proof.
  refine (proj1 (proj2 (register_denotes_one_field (ops := constant)
            p0 "a[_].b" opts0 boundState)
            "a.b" "a" "_" "iterator of a"
            (mkRegisterInfo "c" "iterator of c" {[ "c.b" := true ]})
            (resolves_a_b opts0 boundState eq_refl eq_refl eq_refl)
            (or_intror eq_refl) _) _).
  - reflexivity.
  - cbn. discriminate.
Defined.

(** ["a" notin ["a", "b"]] against ["a" in ["a", "b"]]. *)
Lemma notin_witness :
  exists (b : BoolEvaluator) (st'' : state),
    nodeToEvaluator (ops := distinct) (membership (text "a") "in" ["a"; "b"])
      opts0 state0 = (Ok (BoolEv b) p0, st'') /\
    BoolEv (notModel (mkBoolEvaluator None true 7)) =
      BoolEv (fst (Not (Operators := distinct) b opts0 st'')) /\
    state0 = snd (Not (Operators := distinct) b opts0 st'') /\
    forall ctx : Ctx,
      evalBool (fst (Not (Operators := distinct) b opts0 st'')) ctx =
      negb (evalBool b ctx).
Proof.
  refine (notin_negates_in (ops := distinct) p0 p0 (text "a") None
            (mkArray p0 [] [mkStringMember (Some "a") None None;
                            mkStringMember (Some "b") None None] None)
            opts0 state0 state0 (BoolEv (notModel (mkBoolEvaluator None true 7))) p0
            (fixture_Not_negates distinctTape) _).
  reflexivity.
Defined.

(** [a[_].zzz], a field the model does not know under the iterator [a]:
    the error of [GetEvaluator] comes back and the register is bound. *)
Lemma binding_survives_witness :
  let st1 := snd (bindRegister (ops := distinct) p0 "a.zzz" "a" "_"
                    (Some "iterator of a") state0) in
  identToEvaluator (ops := distinct) (mkIdent p0 "a[_].zzz") opts0 state0 =
    (Err p0 (External "unknown field a.zzz"), st1) /\
  registersInfo st1 =
    <["AAAAAAAA" := boundEntry state0 "AAAAAAAA" "a.zzz" "a" "iterator of a"]>
      (registersInfo state0) /\
  (exists info : registerInfo,
      registersInfo st1 !! "AAAAAAAA" = Some info /\
      reg_subFields info !! "a.zzz" = Some true) /\
  fields st1 = fields state0.
Proof.
  refine (binding_survives_GetEvaluator_error (ops := distinct)
            p0 "a[_].zzz" opts0 state0 _ "a.zzz" "a" "_" "AAAAAAAA"
            "iterator of a" "unknown field a.zzz" resolves_a_zzz _ _);
    reflexivity.
Defined.

(** [a[reg1].b]: with an iterator, a register name other than the
    placeholder is refused before any register is looked up. *)
Example named_register_refused :
  identToEvaluator (ops := distinct) (mkIdent p0 "a[reg1].b") opts0 state0 =
  (Err p0 (RegisterNameNotAllowed p0 "reg1" "only `_` is supported"), state0).
Proof. reflexivity. Qed.

(** [a.b], the bracket left out: the iterator [a] is found on the path and
    the entry records the empty iterator field. *)
Example omitted_bracket_records_empty_field :
  registersInfo
    (snd (identToEvaluator (ops := distinct) (mkIdent p0 "a.b") opts0 state0)) =
  {[ "AAAAAAAA" := mkRegisterInfo "" "iterator of a" {[ "a.b" := true ]} ]}.
Proof. reflexivity. Qed.

End Examples.

(** ** The further properties on concrete inputs *)

Section MoreExamples.
Import Fixtures.
#[local] Existing Instance externals.
#[local] Existing Instance model.

Lemma resolves_a_reg1 :
  resolves opts0 state0 "a[reg1].b" "a.b" "a" "reg1" (Some "iterator of a").
Proof.
  repeat split. exists "a.b", "a". repeat split.
Qed.

Lemma resolves_name :
  resolves opts0 state0 "name" "name" "" "" None.
Proof.
  repeat split. exists "name", "". repeat split.
Qed.

(** [process.file.name] has no bracket. *)
Lemma extractField_no_bracket_witness :
  extractField (E := unit) "process.file.name" = inr ("process.file.name", "", "").
Proof.
  apply (extractField_no_bracket unit "process.file.name"). reflexivity.
Defined.

(** [a.b[reg].c] *)
Lemma extractField_single_register_witness :
  extractField (E := unit) ("a.b" ++ "[" ++ "reg" ++ "]" ++ ".c") =
  inr ("a.b" ++ ".c", "a.b", "reg").
Proof.
  apply (extractField_single_register unit "a.b" "reg" ".c");
    first [discriminate | reflexivity].
Defined.

(** [a[].b] *)
Lemma extractField_empty_register_witness :
  extractField (E := unit) ("a" ++ "[]" ++ ".b") =
  inr ("a" ++ "[]" ++ ".b", "a" ++ "[]" ++ ".b", "").
Proof.
  apply (extractField_empty_register unit "a" ".b"); reflexivity.
Defined.

Lemma Split_of_join_witness :
  Split (String.concat "." ["a"; "b"; "c"]) = ["a"; "b"; "c"].
Proof.
  apply (Split_of_join ["a"; "b"; "c"]); [discriminate | repeat constructor].
Defined.


(** [a[reg1].b] *)
Lemma named_register_witness :
  identToEvaluator (ops := distinct) (mkIdent p0 "a[reg1].b") opts0 state0 =
  (Err p0 (RegisterNameNotAllowed p0 "reg1" "only `_` is supported"), state0).
Proof.
  apply (named_register_not_allowed (ops := distinct) p0 "a[reg1].b" opts0 state0
           "a.b" "a" "reg1" "iterator of a" resolves_a_reg1); discriminate.
Defined.

(** [name], a field under no iterator. *)
Lemma no_iterator_witness :
  registersInfo
    (snd (identToEvaluator (ops := distinct) (mkIdent p0 "name") opts0 state0)) =
    registersInfo state0 /\
  rand (snd (identToEvaluator (ops := distinct) (mkIdent p0 "name") opts0 state0)) =
    rand state0 /\
  fst (identToEvaluator (ops := distinct) (mkIdent p0 "name") opts0 state0) =
    match GetEvaluator "name" "" with
    | inl err => Err p0 (External err)
    | inr accessor => Ok accessor p0
    end.
Proof.
  exact (no_iterator_no_register (ops := distinct) p0 "name" opts0 state0
           "name" "" "" resolves_name).
Defined.

(** The registers of [boundState] across the compile of [a[_].b == "x"]. *)
Lemma keeps_registers_witness :
  keepsRegisters boundState
    (snd (nodeToEvaluator (ops := distinct) (scalar (name "c[_].b") "==" (text "x"))
            opts0 boundState)).
Proof.
  exact (nodeToEvaluator_keeps (ops := distinct) (fixture_keeps_registers distinctTape)
           (scalar (name "c[_].b") "==" (text "x")) opts0 boundState).
Defined.


(** [5 < 10] *)
Lemma scalar_bool_witness :
  (exists b : BoolEvaluator, BoolEv (mkBoolEvaluator None true 15) = BoolEv b) /\
  p0 = p0 /\
  In "<" ["=="; "!="; "<"; "<="; ">"; ">="; "=~"; "!~"].
Proof.
  apply (scalar_comparison_compiles_to_bool (ops := distinct) p0 p0 p0
           (number 5) (Comparison p0 (number 10) None None) "<" opts0 state0 state0).
  reflexivity.
Defined.

(** ["a" == 3]: a type error at the position of the number. *)
Lemma scalar_type_mismatch_witness :
  nodeToEvaluator (ops := distinct) (scalar (text "a") "==" (number 3)) opts0 state0 =
  (Err p0 (TypeError p0 KString), state0).
Proof.
  apply (scalar_type_mismatch (ops := distinct) p0 p0 p0 p0
           (text "a") (Comparison p0 (number 3) None None) "==" opts0
           state0 state0 state0
           (StringEv (stringEvaluator "a" ScalarValueType))
           (IntEv (numberEvaluator 3)) KString); reflexivity.
Defined.

(** [1 in ["a"]] *)
Lemma array_type_mismatch_witness :
  nodeToEvaluator (ops := distinct) (membership (number 1) "in" ["a"]) opts0 state0 =
  (Err p0 (TypeError p0 KArray), state0).
Proof.
  apply (array_type_mismatch (ops := distinct) p0 p0 p0 (number 1) None
           (mkArrayComparison p0 "in"
              (mkArray p0 [] [mkStringMember (Some "a") None None] None))
           opts0 state0 state0 state0
           (IntEv (numberEvaluator 1))
           (StringArrayEv (mkStringArrayEvaluator None ["a"] 0 [])));
    reflexivity.
Defined.

(** [1 in [1, 2]] does not compile to the membership test. *)
Lemma number_list_witness :
  nodeToEvaluator (ops := distinct) (numberMembership (number 1) "in" [1; 2]%Z)
    opts0 state0 <> (Ok (BoolEv (mkBoolEvaluator None true 9)) p0, state0).
Proof.
  apply (number_list_never_compiles (ops := distinct) p0 p0 (number 1) None "in"
           (mkArray p0 [1; 2]%Z [] None) opts0 state0).
  discriminate.
Defined.

(** [5 != 10] against [5 == 10]. *)
Lemma negated_operator_witness :
  exists (b : BoolEvaluator) (st'' : state),
    nodeToEvaluator (ops := distinct) (scalar (number 5) "==" (number 10)) opts0 state0
      = (Ok (BoolEv b) p0, st'') /\
    BoolEv (notModel (mkBoolEvaluator None true 14)) =
      BoolEv (fst (Not (Operators := distinct) b opts0 st'')) /\
    state0 = snd (Not (Operators := distinct) b opts0 st'').
Proof.
  apply (negated_operators_are_Not (ops := distinct) p0 p0 p0 p0 p0
           (number 5) (Comparison p0 (number 10) None None) opts0
           state0 state0 state0 state0
           (IntEv (numberEvaluator 5)) (IntEv (numberEvaluator 10))
           (BoolEv (notModel (mkBoolEvaluator None true 14))) "!=" "==").
  - reflexivity.
  - reflexivity.
  - intros u n [=].
  - now left.
  - reflexivity.
Defined.

(** [ports < 5] against [5 > ports]. *)
Lemma mirrored_witness :
  nodeToEvaluator (ops := distinct)
    (Comparison p0 (name "ports") (Some (ScalarComparison p0 "<" (number 5))) None)
    arrayOpts state0 =
  nodeToEvaluator (ops := distinct)
    (Comparison p0 (number 5) (Some (ScalarComparison p0 (mirror "<") (name "ports"))) None)
    arrayOpts state0.
Proof.
  apply (int_array_left_is_mirrored (ops := distinct) p0 p0 p0 p0
           (name "ports") (number 5) "<" arrayOpts state0
           (mkIntArrayEvaluator None [22; 80]%Z 0) (numberEvaluator 5)).
  - reflexivity.
  - reflexivity.
  - cbn. tauto.
Defined.

(** ["a" in ["a", "b"]] *)
Lemma array_bool_witness :
  (exists b : BoolEvaluator, BoolEv (mkBoolEvaluator None true 7) = BoolEv b) /\ p0 = p0.
Proof.
  apply (array_comparison_compiles_to_bool (ops := distinct) p0 p0 (text "a") None
           (mkArrayComparison p0 "in"
              (mkArray p0 [] [mkStringMember (Some "a") None None;
                              mkStringMember (Some "b") None None] None))
           opts0 state0 state0).
  reflexivity.
Defined.

(** [1 < 2 && "a" == "b"] *)
Lemma logical_witness :
  (exists b : BoolEvaluator, BoolEv (mkBoolEvaluator None true 2) = BoolEv b) /\
  p0 = p0 /\
  In "&&" ["||"; "or"; "&&"; "and"].
Proof.
  refine (let H := logical_expression_compiles_to_bool (ops := distinct) p0 p0
                     (scalar (number 1) "<" (number 2)) "&&"
                     (Some (BooleanExpression
                              (Expression p0 (scalar (text "a") "==" (text "b")) None None)))
                     opts0 state0 state0 (BoolEv (mkBoolEvaluator None true 2)) eq_refl
          in conj (proj1 H) (conj (proj1 (proj2 H)) (proj1 (proj2 (proj2 H))))).
Defined.

(** [6 & 3] *)
Lemma bitwise_witness :
  (exists i : IntEvaluator, IntEv (mkIntEvaluator None 0 3 false) = IntEv i) /\
  p0 = p0 /\
  In "&" ["&"; "|"; "^"].
Proof.
  refine (let H := bit_operation_compiles_to_int (ops := distinct) p0 p0
                     (Unary p0 None None
                        (Some (Primary p0 None (Some 6%Z) None None None None None)))
                     "&" (Some (number 3)) opts0 state0 state0
                     (IntEv (mkIntEvaluator None 0 3 false)) eq_refl
          in conj (proj1 H) (conj (proj1 (proj2 H)) (proj1 (proj2 (proj2 H))))).
Defined.

(** [-5] *)
Lemma unary_witness :
  exists (u : node) (operand : value) (p1 : Position) (st1 : state),
    Some (Unary p0 None None
            (Some (Primary p0 None (Some 5%Z) None None None None None))) = Some u /\
    nodeToEvaluator (ops := distinct) u opts0 state0 = (Ok operand p1, st1) /\
    ((In "-" ["!"; "not"] /\ (exists b, operand = BoolEv b) /\
      (exists b, IntEv (mkIntEvaluator None (-5) 0 false) = BoolEv b) /\ p0 = p0) \/
     (In "-" ["-"; "^"] /\ (exists i, operand = IntEv i) /\
      (exists i, IntEv (mkIntEvaluator None (-5) 0 false) = IntEv i) /\ p0 = p1)).
Proof.
  apply (unary_operator_kinds (ops := distinct) p0 p0 "-"
           (Some (Unary p0 None None
                    (Some (Primary p0 None (Some 5%Z) None None None None None))))
           None opts0 state0 state0 (IntEv (mkIntEvaluator None (-5) 0 false))).
  reflexivity.
Defined.

(** [a[_].b] in the empty state. *)
Lemma fresh_register_witness :
  registersInfo
    (snd (identToEvaluator (ops := distinct) (mkIdent p0 "a[_].b") opts0 state0))
    !! "AAAAAAAA" =
    Some (mkRegisterInfo "a" "iterator of a" {[ "a.b" := true ]}) /\
  (forall r : string, r <> "AAAAAAAA" ->
     registersInfo
       (snd (identToEvaluator (ops := distinct) (mkIdent p0 "a[_].b") opts0 state0))
       !! r = registersInfo state0 !! r).
Proof.
  apply (fresh_register_binding (ops := distinct) p0 "a[_].b" opts0 state0
           "a.b" "a" "_" "iterator of a"
           (resolves_a_b opts0 state0 eq_refl eq_refl eq_refl)
           (or_intror eq_refl)).
  reflexivity.
Defined.

End MoreExamples.
